(** * The ComponentVersion controller of ocm-controller, embedded in Rocq

    Source: [controllers/componentversion_controller.go].

    The Go packages the controller imports are rendered as modules of the
    same name.  Library code that is not part of the repository
    (controller-runtime, cluster-api's patch helper, hashstructure, the OCM
    descriptor types) is modelled as far as the controller observes it, and
    each such definition says so. *)

From stdpp Require Import gmap strings list fin_maps pretty.
From Stdlib Require Import ZArith Ascii.

Local Open Scope Z_scope.

(** ** Go errors and results *)

(** [apierrors] status reasons; only not-found is ever inspected. *)
Inductive StatusReason := ReasonUnknown | ReasonNotFound | ReasonAlreadyExists.

(** A Go [error]: its message, and the API status reason that survives
    wrapping with [%w]. *)
Record error := mkError { reason : StatusReason; message : string }.

Global Instance StatusReason_eq_dec : EqDecision StatusReason.
Proof. solve_decision. Defined.
Global Instance error_eq_dec : EqDecision error.
Proof. solve_decision. Defined.

(** [fmt.Errorf(msg)] without a wrapped error. *)
Definition errorsNew (msg : string) : error := mkError ReasonUnknown msg.

(** [fmt.Errorf(prefix + "%w", err)]. *)
Definition Errorf (prefix : string) (err : error) : error :=
  mkError (reason err) (prefix +:+ message err).

(** [apierrors.IsNotFound]. *)
Definition IsNotFound (err : error) : bool :=
  match reason err with ReasonNotFound => true | _ => false end.

(** A Go pair [(value, error)] of which exactly one side is meaningful. *)
Inductive result (A : Type) : Type :=
| Ok (a : A)
| Err (err : error).
Arguments Ok {A} a.
Arguments Err {A} err.

(** [map[string]string], compared by content. *)
Abbreviation Identity := (gmap string string).

(** [types.NamespacedName] / [client.ObjectKey]: namespace, then name. *)
Abbreviation ObjectKey := (string * string)%type.

(** ** Package [strings] *)

Module strings.

Fixpoint replaceChar (old new : ascii) (s : string) : string :=
match s with
| EmptyString => EmptyString
| String c s' =>
    String (if decide (c = old) then new else c) (replaceChar old new s')
end.

(** [strings.ReplaceAll(s, old, new)] for one-character [old] and [new],
  the only way the controller calls it. *)
Definition ReplaceAll (s : string) (old new : ascii) : string :=
replaceChar old new s.

End strings.

(** ** Package [hash] ([github.com/mitchellh/hashstructure], v1)

    Library code.  [Hash] walks a value by reflection and hashes it with
    [fnv.New64()], the 64-bit FNV-1 hash.  Its documentation states: "Unexported fields on
    structs are ignored and do not affect the hash value".  The walk is
    modelled for the kinds of value the controller passes in: a struct
    whose fields are strings or a [map[string]string]. *)

Module hash.

(** [hash/fnv]: offset basis and prime of the 64-bit FNV hash. *)
Definition offset64 : Z := 14695981039346656037.
Definition prime64 : Z := 1099511628211.

(** One byte written to an FNV-1 hasher: multiply, then xor, on uint64. *)
Definition fnvWriteByte (h b : Z) : Z := Z.lxor ((h * prime64) `mod` 2 ^ 64) b.

(** [Reset], [Write(bs)], [Sum64]. *)
Definition fnv64 (bs : list Z) : Z := fold_left fnvWriteByte bs offset64.

Definition bytesOfString (s : string) : list Z :=
(λ c, Z.of_N (Ascii.N_of_ascii c)) <$> String.list_ascii_of_string s.

(** [binary.Write(h, binary.LittleEndian, x)] for a uint64. *)
Definition littleEndian64 (x : Z) : list Z :=
(λ i, Z.shiftr x (8 * i) `mod` 256) <$> [0; 1; 2; 3; 4; 5; 6; 7].

Definition hashUpdateOrdered (a b : Z) : Z :=
fnv64 (littleEndian64 a ++ littleEndian64 b).

Definition hashUpdateUnordered (a b : Z) : Z := Z.lxor a b.

(** The field values that occur. *)
Inductive Value :=
| VString (s : string)
| VMap (m : Identity).

(** [reflect.StructField] with the field's value: [PkgPath] is empty
  exactly for exported (upper-case) field names. *)
Record StructField := mkField {
FieldName : string;
PkgPath : string;
FieldValue : Value;
}.

(** A struct value as reflection sees it; [TypeName] is [t.Name()], the
  empty string for an anonymous struct type. *)
Record Struct := mkStruct {
TypeName : string;
Fields : list StructField;
}.

(** [visit], case [reflect.String]. *)
Definition visitString (s : string) : Z := fnv64 (bytesOfString s).

(** [visit], case [reflect.Map]: the xor of the ordered hashes of the
  entries. *)
Definition visitMap (m : Identity) : Z :=
map_fold
  (λ k v h,
    hashUpdateUnordered h (hashUpdateOrdered (visitString k) (visitString v)))
  0 m.

Definition visitValue (v : Value) : Z :=
match v with
| VString s => visitString s
| VMap m => visitMap m
end.

(** [visit], case [reflect.Struct]: start from the hash of the type's
  name; a field named [_] or an unexported field is skipped with
  [continue]; an exported one is mixed in. *)
Definition visitField (h : Z) (f : StructField) : Z :=
if decide (FieldName f = "_") then h
else if decide (PkgPath f ≠ "") then h
else
  hashUpdateUnordered h
    (hashUpdateOrdered (visitString (FieldName f)) (visitValue (FieldValue f))).

Definition visitStruct (v : Struct) : Z :=
fold_left visitField (Fields v) (visitString (TypeName v)).

(** [hash.Hash(v, nil)]: default options, FNV-1.  None of the kinds
  above makes the walk fail. *)
Definition Hash (v : Struct) : result Z := Ok (visitStruct v).

End hash.

(** ** Package [metav1] (k8s.io/apimachinery): object metadata *)

Module metav1.

(** [metav1.Time]; [None] is the zero value, for which [IsZero] holds. *)
Definition Time := option Z.
Definition IsZero (t : Time) : bool :=
match t with None => true | Some _ => false end.

(** [metav1.Duration], in nanoseconds. *)
Definition Duration := Z.

(** [schema.GroupVersionKind]. *)
Record GroupVersionKind := mkGVK {
Group : string;
Version : string;
Kind : string;
}.

(** [metav1.OwnerReference]; the [APIVersion] string "group/version" is
  kept as its two parts. *)
Record OwnerReference := mkOwnerReference {
APIGroup : string;
APIVersion : string;
OwnerKind : string;
OwnerName : string;
OwnerUID : string;
}.

Record ObjectMeta := mkObjectMeta {
Namespace : string;
Name : string;
UID : string;
CreationTimestamp : Time;
OwnerReferences : list OwnerReference;
}.

Global Instance GroupVersionKind_eq_dec : EqDecision GroupVersionKind.
Proof. solve_decision. Defined.
Global Instance OwnerReference_eq_dec : EqDecision OwnerReference.
Proof. solve_decision. Defined.
Global Instance ObjectMeta_eq_dec : EqDecision ObjectMeta.
Proof. solve_decision. Defined.

(** [client.ObjectKeyFromObject]. *)
Definition ObjectKeyFromMeta (m : ObjectMeta) : ObjectKey :=
(Namespace m, Name m).

End metav1.

(** ** Package [meta] (fluxcd) *)

Module meta.

Record NamespacedObjectReference := mkNamespacedObjectReference {
Name : string;
Namespace : string;
}.

Global Instance NamespacedObjectReference_eq_dec
: EqDecision NamespacedObjectReference.
Proof. solve_decision. Defined.

End meta.

(** ** Package [ocmdesc]: the internal component descriptor

    Library types; the fields the controller reads, and the remainder of
    the descriptor as an opaque payload. *)

Module ocmdesc.

(** [compdesc.ComponentReference]: [ElementMeta] (name, version, extra
  identity) and the name of the referenced component. *)
Record ComponentReference := mkComponentReference {
Name : string;
Version : string;
ExtraIdentity : Identity;
ComponentName : string;
}.

Record ComponentDescriptor := mkComponentDescriptor {
DescriptorName : string;
DescriptorVersion : string;
References : list ComponentReference;
Content : string;
}.

End ocmdesc.

(** ** Package [compdesc]: the [v3alpha1] descriptor version

    Library types.  [ComponentVersionSpec] is the raw specification payload
    the controller copies into its records and compares; it is carried in
    serialized form. *)

Module compdesc.

Definition ComponentVersionSpec := string.

Record ComponentDescriptor := mkComponentDescriptor {
GetName : string;
GetVersion : string;
Spec : ComponentVersionSpec;
}.

(** [DescriptorVersion]: the conversion from the internal descriptor,
  which fails on a descriptor it cannot represent.  The conversion is
  library code; the embedding receives it as a value of this record. *)
Record DescriptorVersion := mkDescriptorVersion {
ConvertFrom : ocmdesc.ComponentDescriptor → result ComponentDescriptor;
}.

End compdesc.

(** ** Package [v1alpha1]: the API types of the controller *)

Module v1alpha1.

(** [Reference]: one node of the resolved tree in the root's status
  (CRD [status.componentDescriptor]). *)
#[local] Unset Elimination Schemes.
Inductive Reference := mkReference {
Name : string;
Version : string;
References : list Reference;
ExtraIdentity : Identity;
ComponentDescriptorRef : meta.NamespacedObjectReference;
}.
#[local] Set Elimination Schemes.

Record SecretRef := mkSecretRef { SecretName : string }.

Record Repository := mkRepository {
URL : string;
RepositorySecretRef : SecretRef;
}.

Record Signature := mkSignature {
SignatureName : string;
PublicKey : SecretRef;
}.

Record ReferencesConfig := mkReferencesConfig { Expand : bool }.

(** CRD [spec]. *)
Record ComponentVersionSpec := mkComponentVersionSpec {
Interval : metav1.Duration;
Component : string;
SpecVersion : string;
SpecRepository : Repository;
Verify : list Signature;
SpecReferences : ReferencesConfig;
}.

(** CRD [status]. *)
Record ComponentVersionStatus := mkComponentVersionStatus {
StatusComponentDescriptor : Reference;
Verified : bool;
}.

Record ComponentVersion := mkComponentVersion {
ObjectMeta : metav1.ObjectMeta;
Spec : ComponentVersionSpec;
Status : ComponentVersionStatus;
}.

Record ComponentDescriptorSpec := mkComponentDescriptorSpec {
ComponentVersionSpec_ : compdesc.ComponentVersionSpec;
DescriptorSpecVersion : string;
}.

Record ComponentDescriptor := mkComponentDescriptor {
DescriptorMeta : metav1.ObjectMeta;
DescriptorSpec : ComponentDescriptorSpec;
}.

Global Instance ComponentDescriptorSpec_eq_dec : EqDecision ComponentDescriptorSpec.
Proof. solve_decision. Defined.
Global Instance ComponentDescriptor_eq_dec : EqDecision ComponentDescriptor.
Proof. solve_decision. Defined.

Definition GetNamespace (obj : ComponentVersion) : string :=
metav1.Namespace (ObjectMeta obj).

(** Modelled from the spec: [ComponentVersion.GetRequeueAfter] is declared
  in a file of package [v1alpha1] that is not among the sources; the
  spec has a failed reconcile "retry after the configured interval",
  and the sibling [Localization.GetRequeueAfter] returns
  [in.Spec.Interval.Duration]. *)
Definition GetRequeueAfter (obj : ComponentVersion) : metav1.Duration :=
Interval (Spec obj).

(** Replace the status field [ComponentDescriptor] of [obj]. *)
Definition withStatusComponentDescriptor
(obj : ComponentVersion) (ref : Reference) : ComponentVersion :=
mkComponentVersion (ObjectMeta obj) (Spec obj)
  (mkComponentVersionStatus ref (Verified (Status obj))).

End v1alpha1.

(** ** Package [ocmclient]: the fetch and verify capabilities *)

Module ocmclient.

(** [ocm.ComponentVersionAccess], of which the controller only calls
  [GetDescriptor]. *)
Record ComponentVersionAccess := mkComponentVersionAccess {
GetDescriptor : ocmdesc.ComponentDescriptor;
}.

(** The interface [FetchVerifier].  [VerifyComponent] returns the Go pair
  [(bool, error)] as it is: both sides are read. *)
Record FetchVerifier := mkFetchVerifier {
GetComponentVersion :
  v1alpha1.ComponentVersion → string → string → result ComponentVersionAccess;
VerifyComponent : v1alpha1.ComponentVersion → bool * option error;
}.

(** A call made on the interface, as recorded in the world. *)
Inductive Call :=
| CallVerifyComponent (obj : ObjectKey)
| CallGetComponentVersion (name version : string).

End ocmclient.

(** ** Package [client] (controller-runtime): the object store

    Library code and the API server behind it.  The store is keyed by
    namespace and name, one map per kind.  Requests fail when the [Fault]
    table of the client says so (transport and server errors), on a read of
    an absent object (not-found) and on a create of a present one.  The
    server stamps [CreationTimestamp] on create.  The world also records the
    calls made on the [ocmclient.FetchVerifier]. *)

Module client.

Inductive Verb := VGet | VCreate | VUpdate | VPatch.
Inductive ObjectKind := KComponentVersion | KComponentDescriptor.

Record Client := mkClient {
Fault : Verb → ObjectKind → ObjectKey → option string;
Now : Z;
Scheme : gmap string metav1.GroupVersionKind;
}.

Record World := mkWorld {
cvs : gmap ObjectKey v1alpha1.ComponentVersion;
cds : gmap ObjectKey v1alpha1.ComponentDescriptor;
calls : list ocmclient.Call;
}.

Definition withCds (w : World) (m : gmap ObjectKey v1alpha1.ComponentDescriptor)
: World := mkWorld (cvs w) m (calls w).
Definition withCvs (w : World) (m : gmap ObjectKey v1alpha1.ComponentVersion)
: World := mkWorld m (cds w) (calls w).
Definition logCall (w : World) (c : ocmclient.Call) : World :=
mkWorld (cvs w) (cds w) (calls w ++ [c]).

Definition notFound : error := mkError ReasonNotFound "not found".
Definition alreadyExists : error := mkError ReasonAlreadyExists "already exists".

(** [c.Get(ctx, key, obj)] for a [ComponentVersion]. *)
Definition GetComponentVersion (c : Client) (key : ObjectKey) (w : World)
: result v1alpha1.ComponentVersion :=
match Fault c VGet KComponentVersion key with
| Some msg => Err (errorsNew msg)
| None =>
    match cvs w !! key with
    | Some obj => Ok obj
    | None => Err notFound
    end
end.

(** [c.Get(ctx, key, obj)] for a [ComponentDescriptor]: on success [obj]
  is overwritten with the stored object. *)
Definition Get (c : Client) (key : ObjectKey) (w : World)
: result v1alpha1.ComponentDescriptor :=
match Fault c VGet KComponentDescriptor key with
| Some msg => Err (errorsNew msg)
| None =>
    match cds w !! key with
    | Some obj => Ok obj
    | None => Err notFound
    end
end.

(** The object as the server stores it on create. *)
Definition stamped (c : Client) (obj : v1alpha1.ComponentDescriptor)
: v1alpha1.ComponentDescriptor :=
let m := v1alpha1.DescriptorMeta obj in
v1alpha1.mkComponentDescriptor
  (metav1.mkObjectMeta (metav1.Namespace m) (metav1.Name m) (metav1.UID m)
     (Some (Now c)) (metav1.OwnerReferences m))
  (v1alpha1.DescriptorSpec obj).

(** [c.Create(ctx, obj)]. *)
Definition Create (c : Client) (obj : v1alpha1.ComponentDescriptor) (w : World)
: result v1alpha1.ComponentDescriptor * World :=
let key := metav1.ObjectKeyFromMeta (v1alpha1.DescriptorMeta obj) in
match Fault c VCreate KComponentDescriptor key with
| Some msg => (Err (errorsNew msg), w)
| None =>
    match cds w !! key with
    | Some _ => (Err alreadyExists, w)
    | None =>
        let obj := stamped c obj in
        (Ok obj, withCds w (<[key := obj]> (cds w)))
    end
end.

(** [c.Update(ctx, obj)]. *)
Definition Update (c : Client) (obj : v1alpha1.ComponentDescriptor) (w : World)
: result v1alpha1.ComponentDescriptor * World :=
let key := metav1.ObjectKeyFromMeta (v1alpha1.DescriptorMeta obj) in
match Fault c VUpdate KComponentDescriptor key with
| Some msg => (Err (errorsNew msg), w)
| None =>
    match cds w !! key with
    | None => (Err notFound, w)
    | Some _ => (Ok obj, withCds w (<[key := obj]> (cds w)))
    end
end.

(** [c.Status().Patch(ctx, obj, ...)] for a [ComponentVersion], as the
  patch helper issues it: the helper submits what changed in the status
  since it was created.  Applied to a stored object that equals the one
  the helper was created for, which is how [Reconcile] uses it, the status
  of the stored object becomes that of [obj]; the request is modelled as
  issued also when nothing changed. *)
Definition PatchStatus (c : Client) (obj : v1alpha1.ComponentVersion) (w : World)
: result unit * World :=
let key := metav1.ObjectKeyFromMeta (v1alpha1.ObjectMeta obj) in
match Fault c VPatch KComponentVersion key with
| Some msg => (Err (errorsNew msg), w)
| None =>
    match cvs w !! key with
    | None => (Err notFound, w)
    | Some stored =>
        let stored :=
          v1alpha1.mkComponentVersion (v1alpha1.ObjectMeta stored)
            (v1alpha1.Spec stored) (v1alpha1.Status obj) in
        (Ok tt, withCvs w (<[key := stored]> (cvs w)))
    end
end.

End client.

(** ** Package [apiutil] and [controllerutil] (controller-runtime)

    Library code, modelled from its behaviour on the two kinds of object
    the controller handles. *)

Module apiutil.

(** [GVKForObject]: the kind registered in the scheme for a Go type. *)
Definition GVKForObject (goType : string)
(scheme : gmap string metav1.GroupVersionKind)
: result metav1.GroupVersionKind :=
match scheme !! goType with
| Some gvk => Ok gvk
| None => Err (errorsNew ("no kind is registered for the type " +:+ goType))
end.

End apiutil.

Module controllerutil.

Inductive OperationResult :=
| OperationResultNone
| OperationResultCreated
| OperationResultUpdated.

Definition validateOwner (ownerNs objNs : string) : option error :=
if decide (ownerNs ≠ "") then
  if decide (objNs = "") then
    Some (errorsNew "cluster-scoped resource must not have a namespace-scoped owner")
  else if decide (ownerNs ≠ objNs) then
    Some (errorsNew "cross-namespace owner references are disallowed")
  else None
else None.

Definition referSameObject (a b : metav1.OwnerReference) : bool :=
bool_decide (metav1.APIGroup a = metav1.APIGroup b)
&& bool_decide (metav1.OwnerKind a = metav1.OwnerKind b)
&& bool_decide (metav1.OwnerName a = metav1.OwnerName b).

Fixpoint indexOwnerRef (ownerReferences : list metav1.OwnerReference)
(ref : metav1.OwnerReference) : option nat :=
match ownerReferences with
| [] => None
| r :: rest =>
    if referSameObject r ref then Some 0%nat else S <$> indexOwnerRef rest ref
end.

Definition upsertOwnerRef (ref : metav1.OwnerReference)
(owners : list metav1.OwnerReference) : list metav1.OwnerReference :=
match indexOwnerRef owners ref with
| None => owners ++ [ref]
| Some idx => <[idx := ref]> owners
end.

(** The owner reference [SetOwnerReference] builds for [owner]. *)
Definition ownerRefOf (gvk : metav1.GroupVersionKind)
(owner : v1alpha1.ComponentVersion) : metav1.OwnerReference :=
metav1.mkOwnerReference (metav1.Group gvk) (metav1.Version gvk)
  (metav1.Kind gvk)
  (metav1.Name (v1alpha1.ObjectMeta owner))
  (metav1.UID (v1alpha1.ObjectMeta owner)).

(** [SetOwnerReference(owner, object, scheme)]; the updated [object] is
  returned. *)
Definition SetOwnerReference (owner : v1alpha1.ComponentVersion)
(object : v1alpha1.ComponentDescriptor)
(scheme : gmap string metav1.GroupVersionKind)
: result v1alpha1.ComponentDescriptor :=
let m := v1alpha1.DescriptorMeta object in
match validateOwner (v1alpha1.GetNamespace owner) (metav1.Namespace m) with
| Some err => Err err
| None =>
    match apiutil.GVKForObject "ComponentVersion" scheme with
    | Err err => Err err
    | Ok gvk =>
        Ok (v1alpha1.mkComponentDescriptor
              (metav1.mkObjectMeta (metav1.Namespace m) (metav1.Name m)
                 (metav1.UID m) (metav1.CreationTimestamp m)
                 (upsertOwnerRef (ownerRefOf gvk owner) (metav1.OwnerReferences m)))
              (v1alpha1.DescriptorSpec object))
    end
end.

(** [MutateFn]: a closure over the object, here a function of it. *)
Definition MutateFn :=
v1alpha1.ComponentDescriptor → result v1alpha1.ComponentDescriptor.

Definition mutate (f : MutateFn) (key : ObjectKey)
(obj : v1alpha1.ComponentDescriptor) : result v1alpha1.ComponentDescriptor :=
match f obj with
| Err err => Err err
| Ok obj =>
    if decide (key ≠ metav1.ObjectKeyFromMeta (v1alpha1.DescriptorMeta obj)) then
      Err (errorsNew "MutateFn cannot mutate object name and/or object namespace")
    else Ok obj
end.

(** [CreateOrUpdate(ctx, c, obj, f)]; the final [obj] is returned with
  the operation. *)
Definition CreateOrUpdate (c : client.Client)
(obj : v1alpha1.ComponentDescriptor) (f : MutateFn) (w : client.World)
: result (OperationResult * v1alpha1.ComponentDescriptor) * client.World :=
let key := metav1.ObjectKeyFromMeta (v1alpha1.DescriptorMeta obj) in
match client.Get c key w with
| Err err =>
    if negb (IsNotFound err) then (Err err, w)
    else
      match mutate f key obj with
      | Err err => (Err err, w)
      | Ok obj =>
          match client.Create c obj w with
          | (Err err, w) => (Err err, w)
          | (Ok obj, w) => (Ok (OperationResultCreated, obj), w)
          end
      end
| Ok obj =>
    let existing := obj in
    match mutate f key obj with
    | Err err => (Err err, w)
    | Ok obj =>
        if decide (existing = obj) then (Ok (OperationResultNone, obj), w)
        else
          match client.Update c obj w with
          | (Err err, w) => (Err err, w)
          | (Ok obj, w) => (Ok (OperationResultUpdated, obj), w)
          end
    end
end.

End controllerutil.

(** ** Package [patch] (cluster-api)

    Library code.  The helper remembers the object it was created for and
    later submits what changed; the controller changes the status only. *)

Module patch.

Record Helper := mkHelper {
helperClient : client.Client;
beforeObject : v1alpha1.ComponentVersion;
}.

Definition NewHelper (obj : v1alpha1.ComponentVersion) (c : client.Client)
: result Helper :=
match apiutil.GVKForObject "ComponentVersion" (client.Scheme c) with
| Err err => Err err
| Ok _ => Ok (mkHelper c obj)
end.

Definition Patch (h : Helper) (obj : v1alpha1.ComponentVersion) (w : client.World)
: result unit * client.World :=
client.PatchStatus (helperClient h) obj w.

End patch.

(** ** Package [ctrl] *)

Module ctrl.

Record Result := mkResult {
Requeue : bool;
RequeueAfter : metav1.Duration;
}.

(** [ctrl.Result{}]. *)
Definition empty : Result := mkResult false 0.

(** [ctrl.Result{RequeueAfter: d}]. *)
Definition requeueAfter (d : metav1.Duration) : Result := mkResult false d.

End ctrl.

(** ** Package [controllers]: the reconciler *)

Module controllers.

(** [ComponentVersionReconciler]: the client, the scheme and the OCM
  client; [Converter] stands for the [compdesc.DescriptorVersion] value
  the code instantiates before each conversion. *)
Record ComponentVersionReconciler := mkReconciler {
Client : client.Client;
Scheme : gmap string metav1.GroupVersionKind;
OCMClient : ocmclient.FetchVerifier;
Converter : compdesc.DescriptorVersion;
}.

(** The import path of package [controllers]; the [PkgPath] reflection
  reports for its unexported identifiers. *)
Definition controllersPkgPath : string :=
"github.com/open-component-model/ocm-controller/controllers".

(** The anonymous struct [namingScheme] with the lower-case fields
  [componentName], [version] and [identity]. *)
Definition namingScheme (name version : string) (identity : Identity)
: hash.Struct :=
hash.mkStruct ""
  [ hash.mkField "componentName" controllersPkgPath (hash.VString name);
    hash.mkField "version" controllersPkgPath (hash.VString version);
    hash.mkField "identity" controllersPkgPath (hash.VMap identity) ].

(** [constructComponentName] constructs a unique name from a component
  name and version: [fmt.Sprintf("%s-%s-%d", ...)] of the name with
  every [/] replaced by [-], the version and the hash. *)
Definition constructComponentName (name version : string) (identity : Identity)
: result string :=
match hash.Hash (namingScheme name version identity) with
| Err err =>
    Err (Errorf "failed to generate hash for name, version, identity: " err)
| Ok h =>
    Ok (strings.ReplaceAll name "/"%char "-"%char +:+ "-" +:+ version +:+ "-" +:+ pretty h)
end.


(** [r.OCMClient.VerifyComponent(ctx, component)], recorded. *)
Definition VerifyComponent (r : ComponentVersionReconciler)
(component : v1alpha1.ComponentVersion) (w : client.World)
: (bool * option error) * client.World :=
(ocmclient.VerifyComponent (OCMClient r) component,
 client.logCall w
   (ocmclient.CallVerifyComponent
      (metav1.ObjectKeyFromMeta (v1alpha1.ObjectMeta component)))).

(** [r.OCMClient.GetComponentVersion(ctx, obj, name, version)], recorded. *)
Definition GetComponentVersion (r : ComponentVersionReconciler)
(obj : v1alpha1.ComponentVersion) (name version : string) (w : client.World)
: result ocmclient.ComponentVersionAccess * client.World :=
(ocmclient.GetComponentVersion (OCMClient r) obj name version,
 client.logCall w (ocmclient.CallGetComponentVersion name version)).

(** A fresh [&v1alpha1.ComponentDescriptor{ObjectMeta: {Namespace, Name}, Spec}]. *)
Definition newDescriptor (namespace name : string)
(spec : v1alpha1.ComponentDescriptorSpec) : v1alpha1.ComponentDescriptor :=
v1alpha1.mkComponentDescriptor
  (metav1.mkObjectMeta namespace name "" None []) spec.

Definition withSpec (descriptor : v1alpha1.ComponentDescriptor)
(spec : v1alpha1.ComponentDescriptorSpec) : v1alpha1.ComponentDescriptor :=
v1alpha1.mkComponentDescriptor (v1alpha1.DescriptorMeta descriptor) spec.

(** The [v1alpha1.Reference] pointing at [descriptor]. *)
Definition referenceTo (name version : string) (identity : Identity)
(descriptor : v1alpha1.ComponentDescriptor)
(references : list v1alpha1.Reference) : v1alpha1.Reference :=
v1alpha1.mkReference name version references identity
  (meta.mkNamespacedObjectReference
     (metav1.Name (v1alpha1.DescriptorMeta descriptor))
     (metav1.Namespace (v1alpha1.DescriptorMeta descriptor))).

(** The outcome of a call that may exhaust the recursion budget: [None]
  when it does. *)
Definition outcome (A : Type) : Type := option (result A) * client.World.

(** The body of the [for _, ref := range references] loop of
  [parseReferences]; [recurse] is the recursive call. *)
Definition parseReferences_body
(recurse : list ocmdesc.ComponentReference → client.World →
           outcome (list v1alpha1.Reference))
(r : ComponentVersionReconciler) (parent : v1alpha1.ComponentVersion)
(ref : ocmdesc.ComponentReference) (w : client.World)
: outcome v1alpha1.Reference :=
(* get component version *)
match GetComponentVersion r parent (ocmdesc.ComponentName ref)
        (ocmdesc.Version ref) w with
| (Err err, w) =>
    (Some (Err (Errorf "failed to get component version: " err)), w)
| (Ok rcv, w) =>
(* convert ComponentDescriptor to v3alpha1 *)
match compdesc.ConvertFrom (Converter r) (ocmclient.GetDescriptor rcv) with
| Err err =>
    (Some (Err (Errorf "failed to convret component descriptor: " err)), w)
| Ok cd =>
(* setup the component descriptor kubernetes resource *)
match constructComponentName (ocmdesc.ComponentName ref)
        (ocmdesc.Version ref) (ocmdesc.ExtraIdentity ref) with
| Err err => (Some (Err (Errorf "failed to generate name: " err)), w)
| Ok componentName =>
let descriptor :=
  newDescriptor (v1alpha1.GetNamespace parent) componentName
    (v1alpha1.mkComponentDescriptorSpec (compdesc.Spec cd) (ocmdesc.Version ref)) in
match controllerutil.SetOwnerReference parent descriptor (Scheme r) with
| Err err => (Some (Err (Errorf "failed to set owner reference: " err)), w)
| Ok descriptor =>
(* create or update the component descriptor kubernetes resource
   we don't need to update it *)
match controllerutil.CreateOrUpdate (Client r) descriptor (λ d, Ok d) w with
| (Err err, w) =>
    (Some (Err (Errorf "failed to create/update component descriptor: " err)), w)
| (Ok (op, descriptor), w) =>
let reference :=
  referenceTo (ocmdesc.Name ref) (ocmdesc.Version ref)
    (ocmdesc.ExtraIdentity ref) descriptor [] in
let references := ocmdesc.References (ocmclient.GetDescriptor rcv) in
if decide (0 < length references)%nat then
  match recurse references w with
  | (None, w) => (None, w)
  | (Some (Err err), w) => (Some (Err err), w)
  | (Some (Ok out), w) =>
      (Some (Ok (referenceTo (ocmdesc.Name ref) (ocmdesc.Version ref)
                   (ocmdesc.ExtraIdentity ref) descriptor out)), w)
  end
else (Some (Ok reference), w)
end end end end end.

(** The loop itself: [result] accumulates by [append]; the first failing
  iteration returns. *)
Fixpoint parseReferences_loop
(body : ocmdesc.ComponentReference → client.World → outcome v1alpha1.Reference)
(references : list ocmdesc.ComponentReference)
(result_ : list v1alpha1.Reference) (w : client.World)
: outcome (list v1alpha1.Reference) :=
match references with
| [] => (Some (Ok result_), w)
| ref :: references =>
    match body ref w with
    | (None, w) => (None, w)
    | (Some (Err err), w) => (Some (Err err), w)
    | (Some (Ok reference), w) =>
        parseReferences_loop body references (result_ ++ [reference]) w
    end
end.

(** [parseReferences] takes a list of references to embedded components
  and constructs a dependency tree out of them.  [fuel] bounds the
  depth of the recursion, which the Go code leaves unbounded. *)
Fixpoint parseReferences (fuel : nat) (r : ComponentVersionReconciler)
(parent : v1alpha1.ComponentVersion)
(references : list ocmdesc.ComponentReference) (w : client.World)
: outcome (list v1alpha1.Reference) :=
match fuel with
| O => (None, w)
| S fuel =>
    parseReferences_loop
      (parseReferences_body (parseReferences fuel r parent) r parent)
      references [] w
end.

(** The mutate function [reconcile] hands to [CreateOrUpdate]. *)
Definition reconcile_mutate (r : ComponentVersionReconciler)
(obj : v1alpha1.ComponentVersion) (cd : compdesc.ComponentDescriptor)
: controllerutil.MutateFn :=
λ descriptor,
  let spec :=
    v1alpha1.mkComponentDescriptorSpec (compdesc.Spec cd) (compdesc.GetVersion cd) in
  if metav1.IsZero (metav1.CreationTimestamp (v1alpha1.DescriptorMeta descriptor)) then
    match controllerutil.SetOwnerReference obj descriptor (Scheme r) with
    | Err err => Err (Errorf "failed to set owner reference: " err)
    | Ok descriptor => Ok (withSpec descriptor spec)
    end
  else Ok (withSpec descriptor spec).

(** What [Reconcile] and [reconcile] return: the Go pair
  [(ctrl.Result, error)], or [None] when the recursion budget ran out. *)
Definition returned : Type := option (ctrl.Result * option error) * client.World.

Definition reconcile (fuel : nat) (r : ComponentVersionReconciler)
(obj : v1alpha1.ComponentVersion) (w : client.World) : returned :=
let requeue := ctrl.requeueAfter (v1alpha1.GetRequeueAfter obj) in
(* get component version *)
match GetComponentVersion r obj (v1alpha1.Component (v1alpha1.Spec obj))
        (v1alpha1.SpecVersion (v1alpha1.Spec obj)) w with
| (Err err, w) =>
    (Some (requeue, Some (Errorf "failed to get component version: " err)), w)
| (Ok cv, w) =>
(* convert ComponentDescriptor to v3alpha1 *)
match compdesc.ConvertFrom (Converter r) (ocmclient.GetDescriptor cv) with
| Err err =>
    (Some (ctrl.empty,
           Some (Errorf "failed to convret component descriptor: " err)), w)
| Ok cd =>
(* setup the component descriptor kubernetes resource *)
match constructComponentName (compdesc.GetName cd) (compdesc.GetVersion cd) ∅ with
| Err err => (Some (requeue, Some (Errorf "failed to generate name: " err)), w)
| Ok componentName =>
let descriptor :=
  newDescriptor (v1alpha1.GetNamespace obj) componentName
    (v1alpha1.mkComponentDescriptorSpec "" "") in
(* create or update the component descriptor kubernetes resource *)
match controllerutil.CreateOrUpdate (Client r) descriptor
        (reconcile_mutate r obj cd) w with
| (Err err, w) =>
    (Some (requeue,
           Some (Errorf "failed to create or update component descriptor: " err)), w)
| (Ok (op, descriptor), w) =>
let componentDescriptor :=
  referenceTo (compdesc.GetName cd) (compdesc.GetVersion cd) ∅ descriptor [] in
(* if references.expand is false then return here *)
if negb (v1alpha1.Expand (v1alpha1.SpecReferences (v1alpha1.Spec obj))) then
  (Some (requeue, None), w)
else
match parseReferences fuel r obj
        (ocmdesc.References (ocmclient.GetDescriptor cv)) w with
| (None, w) => (None, w)
| (Some (Err err), w) =>
    (Some (requeue, Some (Errorf "failed to get references: " err)), w)
| (Some (Ok references), w) =>
let componentDescriptor :=
  referenceTo (compdesc.GetName cd) (compdesc.GetVersion cd) ∅ descriptor
    references in
(* initialize the patch helper *)
match patch.NewHelper obj (Client r) with
| Err err =>
    (Some (requeue, Some (Errorf "failed to create patch helper: " err)), w)
| Ok patchHelper =>
let obj := v1alpha1.withStatusComponentDescriptor obj componentDescriptor in
match patch.Patch patchHelper obj w with
| (Err err, w) =>
    (Some (requeue, Some (Errorf "failed to patch resource: " err)), w)
| (Ok _, w) => (Some (requeue, None), w)
end end end end end end end.

(** [Reconcile] is part of the main kubernetes reconciliation loop which
  aims to move the current state of the cluster closer to the desired
  state. *)
Definition Reconcile (fuel : nat) (r : ComponentVersionReconciler)
(req : ObjectKey) (w : client.World) : returned :=
match client.GetComponentVersion (Client r) req w with
| Err err =>
    if IsNotFound err then (Some (ctrl.empty, None), w)
    else (Some (ctrl.empty, Some (Errorf "failed to get component object: " err)), w)
| Ok component =>
    match VerifyComponent r component w with
    | ((_, Some err), w) =>
        (Some (ctrl.requeueAfter (v1alpha1.GetRequeueAfter component),
               Some (Errorf "failed to verify component: " err)), w)
    | ((ok, None), w) =>
        if negb ok then
          (Some (ctrl.requeueAfter (v1alpha1.GetRequeueAfter component),
                 Some (errorsNew
                         "attempted to verify component, but the digest didn't match")),
           w)
        else reconcile fuel r component w
    end
end.

End controllers.

(** ** The set-up of [TestComponentVersionReconcile], and variations of it *)

Module fixture.

Definition scheme : gmap string metav1.GroupVersionKind :=
{[ "ComponentVersion" :=
     metav1.mkGVK "delivery.ocm.software" "v1alpha1" "ComponentVersion" ]}.

(** A client without faults. *)
Definition fakeClient : client.Client :=
client.mkClient (λ _ _ _, None) 1667000000 scheme.

Definition tenMinutes : metav1.Duration := 600000000000.

Definition noReference : v1alpha1.Reference :=
v1alpha1.mkReference "" "" [] ∅ (meta.mkNamespacedObjectReference "" "").

(** The [ComponentVersion] object of the test, with the expand flag as
  given. *)
Definition objWith (expand : bool) : v1alpha1.ComponentVersion :=
v1alpha1.mkComponentVersion
  (metav1.mkObjectMeta "default" "test-name" "uid-1" (Some 1666000000) [])
  (v1alpha1.mkComponentVersionSpec tenMinutes "github.com/skarlso/root" "v0.0.1"
     (v1alpha1.mkRepository "https://github.com/Skarlso/test"
        (v1alpha1.mkSecretRef "test-secret"))
     []
     (v1alpha1.mkReferencesConfig expand))
  (v1alpha1.mkComponentVersionStatus noReference false).

Definition obj : v1alpha1.ComponentVersion := objWith true.

Definition key : ObjectKey := ("default", "test-name").

Definition root : ocmdesc.ComponentDescriptor :=
ocmdesc.mkComponentDescriptor "github.com/skarlso/root" "v0.0.1"
  [ ocmdesc.mkComponentReference "test-ref-1" "v0.0.1" ∅
      "github.com/skarlso/embedded" ]
  "root-spec".

Definition embedded : ocmdesc.ComponentDescriptor :=
ocmdesc.mkComponentDescriptor "github.com/skarlso/embedded" "v0.0.1" []
  "embedded-spec".

(** [mockFetcher]: the descriptor is looked up by name alone and handed
  back together with [getComponentErr].  For a name it does not hold the
  Go double hands back a nil access; with no error set the controller
  would dereference it, and here such a name is answered with an error
  instead, as a repository answers. *)
Definition mockFetcher (cv : gmap string ocmdesc.ComponentDescriptor)
(getComponentErr : option error) (verified : bool) (verifyErr : option error)
: ocmclient.FetchVerifier :=
ocmclient.mkFetchVerifier
  (λ _ name _,
    match getComponentErr with
    | Some err => Err err
    | None =>
        match cv !! name with
        | Some d => Ok (ocmclient.mkComponentVersionAccess d)
        | None => Err (errorsNew "component version not found")
        end
    end)
  (λ _, (verified, verifyErr)).

Definition components : gmap string ocmdesc.ComponentDescriptor :=
{[ "github.com/skarlso/embedded" := embedded;
   "github.com/skarlso/root" := root ]}.

(** A conversion that keeps name and version and takes the payload as
  the specification. *)
Definition converter : compdesc.DescriptorVersion :=
compdesc.mkDescriptorVersion
  (λ d, Ok (compdesc.mkComponentDescriptor (ocmdesc.DescriptorName d)
              (ocmdesc.DescriptorVersion d) (ocmdesc.Content d))).

Definition reconcilerWith (cv : gmap string ocmdesc.ComponentDescriptor)
(verified : bool) (verifyErr : option error)
: controllers.ComponentVersionReconciler :=
controllers.mkReconciler fakeClient scheme
  (mockFetcher cv None verified verifyErr) converter.

Definition cvr : controllers.ComponentVersionReconciler :=
reconcilerWith components true None.

Definition worldWith (o : v1alpha1.ComponentVersion) : client.World :=
client.mkWorld {[ key := o ]} ∅ [].

Definition world : client.World := worldWith obj.

(** A root declaring the children A, B, C in this order, of which B has
  a child D. *)
Definition declare (name component : string) : ocmdesc.ComponentReference :=
ocmdesc.mkComponentReference name "v1" ∅ component.

Definition describe (name : string) (references : list ocmdesc.ComponentReference)
: ocmdesc.ComponentDescriptor :=
ocmdesc.mkComponentDescriptor name "v1" references (name +:+ "-spec").

Definition declaredABC : list ocmdesc.ComponentReference :=
[ declare "A" "acme/a"; declare "B" "acme/b"; declare "C" "acme/c" ].

Definition family : gmap string ocmdesc.ComponentDescriptor :=
{[ "github.com/skarlso/root" := describe "github.com/skarlso/root" declaredABC;
   "acme/a" := describe "acme/a" [];
   "acme/b" := describe "acme/b" [ declare "D" "acme/d" ];
   "acme/c" := describe "acme/c" [];
   "acme/d" := describe "acme/d" [] ]}.

Definition familyReconciler : controllers.ComponentVersionReconciler :=
reconcilerWith family true None.

(** The longest chain of declarations below a component of [family]. *)
Definition familyRank (name version : string) : nat :=
if decide (name = "github.com/skarlso/root") then 2
else if decide (name = "acme/b") then 1
else 0.

(** A finite repository with a reference cycle.  The root declares a
  leaf, then [acme/ping], then a component the repository does not hold;
  [acme/ping] declares [acme/pong], which declares [acme/ping] again. *)
Definition leaf : ocmdesc.ComponentReference := declare "leaf" "acme/leaf".
Definition ping : ocmdesc.ComponentReference := declare "ping" "acme/ping".
Definition pong : ocmdesc.ComponentReference := declare "pong" "acme/pong".
Definition gone : ocmdesc.ComponentReference := declare "gone" "acme/gone".

Definition declaredLoop : list ocmdesc.ComponentReference := [leaf; ping; gone].

Definition cyclic : gmap string ocmdesc.ComponentDescriptor :=
{[ "github.com/skarlso/root" := describe "github.com/skarlso/root" declaredLoop;
   "acme/leaf" := describe "acme/leaf" [];
   "acme/ping" := describe "acme/ping" [pong];
   "acme/pong" := describe "acme/pong" [ping] ]}.

Definition loopReconciler : controllers.ComponentVersionReconciler :=
reconcilerWith cyclic true None.

(** A store that already holds the records of the root and of its child,
  written earlier with other payloads and owned by another root. *)
Definition rootKey : ObjectKey :=
("default", "github.com-skarlso-root-v0.0.1-14695981039346656037").

Definition embeddedKey : ObjectKey :=
("default", "github.com-skarlso-embedded-v0.0.1-14695981039346656037").

Definition otherOwner : metav1.OwnerReference :=
metav1.mkOwnerReference "delivery.ocm.software" "v1alpha1" "ComponentVersion"
  "other-root" "uid-2".

Definition stale (k : ObjectKey) (payload : string) : v1alpha1.ComponentDescriptor :=
v1alpha1.mkComponentDescriptor
  (metav1.mkObjectMeta k.1 k.2 "" (Some 1665000000) [otherOwner])
  (v1alpha1.mkComponentDescriptorSpec payload "v0.0.0").

Definition staleWorld : client.World :=
client.mkWorld {[ key := obj ]}
  {[ rootKey := stale rootKey "stale-root-spec";
     embeddedKey := stale embeddedKey "stale-embedded-spec" ]} [].

(** The child record the test run creates in the empty store. *)
Definition ownedEmbedded : v1alpha1.ComponentDescriptor :=
v1alpha1.mkComponentDescriptor
  (metav1.mkObjectMeta embeddedKey.1 embeddedKey.2 "" (Some 1667000000)
     [metav1.mkOwnerReference "delivery.ocm.software" "v1alpha1"
        "ComponentVersion" "test-name" "uid-1"])
  (v1alpha1.mkComponentDescriptorSpec "embedded-spec" "v0.0.1").

Definition familyTree : list v1alpha1.Reference :=
Eval vm_compute in
  match fst (controllers.parseReferences 5 familyReconciler obj declaredABC world) with
  | Some (Ok out) => out
  | _ => []
  end.

End fixture.

(** * Notions used in the statements *)

(** The tree [result_] mirrors the declaration [references]: entry by entry
    and in the same order it carries the declared name, version and extra
    identity, and its subtree mirrors the references declared by the
    descriptor fetched for that entry. *)
Inductive MirrorsDeclaration (r : controllers.ComponentVersionReconciler)
  (parent : v1alpha1.ComponentVersion)
  : list ocmdesc.ComponentReference → list v1alpha1.Reference → Prop :=
| Mirrors_nil : MirrorsDeclaration r parent [] []
| Mirrors_cons ref references reference result_ rcv :
    ocmclient.GetComponentVersion (controllers.OCMClient r) parent
      (ocmdesc.ComponentName ref) (ocmdesc.Version ref) = Ok rcv →
    v1alpha1.Name reference = ocmdesc.Name ref →
    v1alpha1.Version reference = ocmdesc.Version ref →
    v1alpha1.ExtraIdentity reference = ocmdesc.ExtraIdentity ref →
    MirrorsDeclaration r parent
      (ocmdesc.References (ocmclient.GetDescriptor rcv))
      (v1alpha1.References reference) →
    MirrorsDeclaration r parent references result_ →
    MirrorsDeclaration r parent (ref :: references) (reference :: result_).

(** The reference graph the fetcher serves for [parent] is acyclic: some
    rank on (component name, version) strictly decreases along every
    declared reference. *)
Definition Acyclic (r : controllers.ComponentVersionReconciler)
  (parent : v1alpha1.ComponentVersion) (rank : string → string → nat) : Prop :=
  ∀ name version rcv,
    ocmclient.GetComponentVersion (controllers.OCMClient r) parent name version
    = Ok rcv →
    ∀ ref, ref ∈ ocmdesc.References (ocmclient.GetDescriptor rcv) →
      (rank (ocmdesc.ComponentName ref) (ocmdesc.Version ref) < rank name version)%nat.

(** The references in [Q] expand without failure: each of them is fetched
    and its descriptor converted, and the references its descriptor
    declares are in [Q] again. *)
Definition Expands (r : controllers.ComponentVersionReconciler)
  (parent : v1alpha1.ComponentVersion)
  (Q : ocmdesc.ComponentReference → Prop) : Prop :=
  ∀ ref, Q ref →
    ∃ rcv cd,
      ocmclient.GetComponentVersion (controllers.OCMClient r) parent
        (ocmdesc.ComponentName ref) (ocmdesc.Version ref) = Ok rcv ∧
      compdesc.ConvertFrom (controllers.Converter r) (ocmclient.GetDescriptor rcv)
      = Ok cd ∧
      ∀ ref', ref' ∈ ocmdesc.References (ocmclient.GetDescriptor rcv) → Q ref'.

(** The references in [P] lie on a reference cycle: each of them is
    fetched and its descriptor converted, and the descriptor declares a
    reference that is in [P] again, after references that are all in [Q].
    Nothing is asked of the references declared after it. *)
Definition OnCycle (r : controllers.ComponentVersionReconciler)
  (parent : v1alpha1.ComponentVersion)
  (Q P : ocmdesc.ComponentReference → Prop) : Prop :=
  ∀ ref, P ref →
    ∃ rcv cd before ref' after,
      ocmclient.GetComponentVersion (controllers.OCMClient r) parent
        (ocmdesc.ComponentName ref) (ocmdesc.Version ref) = Ok rcv ∧
      compdesc.ConvertFrom (controllers.Converter r) (ocmclient.GetDescriptor rcv)
      = Ok cd ∧
      ocmdesc.References (ocmclient.GetDescriptor rcv) = before ++ ref' :: after ∧
      (∀ x, x ∈ before → Q x) ∧ P ref'.

(** The cluster does not fail: the scheme knows the root's kind, and the
    client injects no fault on descriptor requests. *)
Definition NeverFails (r : controllers.ComponentVersionReconciler) : Prop :=
  is_Some (controllers.Scheme r !! "ComponentVersion") ∧
  (∀ verb key,
      client.Fault (controllers.Client r) verb client.KComponentDescriptor key = None).

(** What the API server guarantees of the stored objects: each is stored
    under its own namespace and name, and a stored descriptor carries a
    creation timestamp. *)
Definition StoreOK (w : client.World) : Prop :=
  (∀ k d, client.cds w !! k = Some d →
     metav1.ObjectKeyFromMeta (v1alpha1.DescriptorMeta d) = k ∧
     metav1.CreationTimestamp (v1alpha1.DescriptorMeta d) ≠ None) ∧
  (∀ k o, client.cvs w !! k = Some o →
     metav1.ObjectKeyFromMeta (v1alpha1.ObjectMeta o) = k).

(** [w'] extends [w] by child records of [parent]: the root objects are
    the same, and every descriptor key either holds what it held, or was
    free and now holds a record stamped by the server whose only owner is
    [parent]. *)
Definition Extends (r : controllers.ComponentVersionReconciler)
  (parent : v1alpha1.ComponentVersion) (w w' : client.World) : Prop :=
  client.cvs w' = client.cvs w ∧
  ∀ k,
    client.cds w' !! k = client.cds w !! k ∨
    (client.cds w !! k = None ∧
     ∃ d gvk,
       client.cds w' !! k = Some d ∧
       metav1.ObjectKeyFromMeta (v1alpha1.DescriptorMeta d) = k ∧
       metav1.CreationTimestamp (v1alpha1.DescriptorMeta d) ≠ None ∧
       controllers.Scheme r !! "ComponentVersion" = Some gvk ∧
       metav1.OwnerReferences (v1alpha1.DescriptorMeta d)
       = [controllerutil.ownerRefOf gvk parent]).

(** Two worlds hold the same objects (their call logs may differ). *)
Definition SameStores (t t' : client.World) : Prop :=
  client.cds t' = client.cds t ∧ client.cvs t' = client.cvs t.

(** Every descriptor key taken in [w] is taken in [t]. *)
Definition Covers (w t : client.World) : Prop :=
  ∀ k, is_Some (client.cds w !! k) → is_Some (client.cds t !! k).

Definition returnedOk {A} (res : option (result A)) : Prop :=
  ∃ x, res = Some (Ok x).

(** A run replays: started again from a store that covers the one it left
    behind (and is that very store, if the run did not succeed), it
    returns the same and writes nothing. *)
Definition Replays {A} (run : client.World → controllers.outcome A) : Prop :=
  ∀ w res w1,
    StoreOK w → run w = (res, w1) →
    ∀ t, StoreOK t → Covers w1 t →
      (¬ returnedOk res → client.cds t = client.cds w1) →
      ∃ t', run t = (res, t') ∧ SameStores t t'.

(** The answers of the OCM client do not depend on the status of the
    object they are asked for: what the controller writes to the status
    does not change the upstream data. *)
Definition StatusBlind (r : controllers.ComponentVersionReconciler) : Prop :=
  ∀ obj status,
    let obj' :=
      v1alpha1.mkComponentVersion (v1alpha1.ObjectMeta obj) (v1alpha1.Spec obj) status in
    ocmclient.VerifyComponent (controllers.OCMClient r) obj'
    = ocmclient.VerifyComponent (controllers.OCMClient r) obj ∧
    ∀ name version,
      ocmclient.GetComponentVersion (controllers.OCMClient r) obj' name version
      = ocmclient.GetComponentVersion (controllers.OCMClient r) obj name version.

(** The pointers of a reference tree: the [ComponentDescriptorRef] of the
    node and of every node below it. *)
Fixpoint pointers (x : v1alpha1.Reference) : list meta.NamespacedObjectReference :=
  v1alpha1.ComponentDescriptorRef x :: flat_map pointers (v1alpha1.References x).

(** The pointer names a record of the descriptor store. *)
Definition Resolves (w : client.World) (p : meta.NamespacedObjectReference) : Prop :=
  is_Some (client.cds w !! (meta.Namespace p, meta.Name p)).

(** The call is a fetch of a component version. *)
Definition isFetch (c : ocmclient.Call) : Prop :=
  match c with
  | ocmclient.CallGetComponentVersion _ _ => True
  | ocmclient.CallVerifyComponent _ => False
  end.

(** [ref] is declared below [references]: it is one of them, or the
    descriptor fetched for a reference declared below them declares it. *)
Inductive Declared (r : controllers.ComponentVersionReconciler)
  (parent : v1alpha1.ComponentVersion)
  (references : list ocmdesc.ComponentReference)
  : ocmdesc.ComponentReference → Prop :=
| Declared_here ref :
    ref ∈ references → Declared r parent references ref
| Declared_below ref rcv ref' :
    Declared r parent references ref →
    ocmclient.GetComponentVersion (controllers.OCMClient r) parent
      (ocmdesc.ComponentName ref) (ocmdesc.Version ref) = Ok rcv →
    ref' ∈ ocmdesc.References (ocmclient.GetDescriptor rcv) →
    Declared r parent references ref'.

(** [d], stored under [k], is the record the expansion of [references]
    writes for a reference it fetched: the reference is declared below
    [references], its fetch is among the calls [trace], and the record lies
    in the namespace of [parent] under the key computed for the reference
    and carries the converted specification of the component fetched for
    it, with the version the reference declares. *)
Definition ChildRecordOf (r : controllers.ComponentVersionReconciler)
  (parent : v1alpha1.ComponentVersion)
  (references : list ocmdesc.ComponentReference) (trace : list ocmclient.Call)
  (k : ObjectKey) (d : v1alpha1.ComponentDescriptor) : Prop :=
  ∃ ref rcv cd componentName,
    Declared r parent references ref ∧
    ocmclient.CallGetComponentVersion (ocmdesc.ComponentName ref)
      (ocmdesc.Version ref) ∈ trace ∧
    ocmclient.GetComponentVersion (controllers.OCMClient r) parent
      (ocmdesc.ComponentName ref) (ocmdesc.Version ref) = Ok rcv ∧
    compdesc.ConvertFrom (controllers.Converter r) (ocmclient.GetDescriptor rcv)
    = Ok cd ∧
    controllers.constructComponentName (ocmdesc.ComponentName ref)
      (ocmdesc.Version ref) (ocmdesc.ExtraIdentity ref) = Ok componentName ∧
    k = (v1alpha1.GetNamespace parent, componentName) ∧
    metav1.ObjectKeyFromMeta (v1alpha1.DescriptorMeta d) = k ∧
    v1alpha1.DescriptorSpec d
    = v1alpha1.mkComponentDescriptorSpec (compdesc.Spec cd) (ocmdesc.Version ref).

(** What the expansion of [references] may do to the world: it appends
    calls, leaves the root objects alone, keeps every stored descriptor,
    and adds only child records of references it fetched. *)
Definition Writes (r : controllers.ComponentVersionReconciler)
  (parent : v1alpha1.ComponentVersion)
  (references : list ocmdesc.ComponentReference) (w w' : client.World) : Prop :=
  ∃ trace,
    client.calls w' = client.calls w ++ trace ∧
    client.cvs w' = client.cvs w ∧
    (∀ k d, client.cds w !! k = Some d → client.cds w' !! k = Some d) ∧
    (∀ k d, client.cds w' !! k = Some d →
            client.cds w !! k = Some d ∨
            (client.cds w !! k = None ∧
             ChildRecordOf r parent references trace k d)).

(** [trace] is the depth-first walk of the declaration [references]: each
    reference is fetched, then the references its descriptor declares are
    walked, then its next sibling. *)
Inductive Visits (r : controllers.ComponentVersionReconciler)
  (parent : v1alpha1.ComponentVersion)
  : list ocmdesc.ComponentReference → list ocmclient.Call → Prop :=
| Visits_nil : Visits r parent [] []
| Visits_cons ref references rcv below rest :
    ocmclient.GetComponentVersion (controllers.OCMClient r) parent
      (ocmdesc.ComponentName ref) (ocmdesc.Version ref) = Ok rcv →
    Visits r parent (ocmdesc.References (ocmclient.GetDescriptor rcv)) below →
    Visits r parent references rest →
    Visits r parent (ref :: references)
      (ocmclient.CallGetComponentVersion (ocmdesc.ComponentName ref)
         (ocmdesc.Version ref) :: below ++ rest).

(** * Properties *)

(** ** The store operations *)

Lemma Create_spec c obj w res w' :
  client.Create c obj w = (res, w') →
  client.cvs w' = client.cvs w ∧ client.calls w' = client.calls w ∧
  match res with
  | Err _ => w' = w
  | Ok o =>
      let key := metav1.ObjectKeyFromMeta (v1alpha1.DescriptorMeta obj) in
      client.cds w !! key = None ∧ o = client.stamped c obj ∧
      client.cds w' = <[key := o]> (client.cds w)
  end.
Proof.
  unfold client.Create. intros H.
  destruct (client.Fault c _ _ _); [by simplify_eq|].
  destruct (client.cds w !! _) eqn:E; by simplify_eq.
Qed.

Lemma Update_spec c obj w res w' :
  client.Update c obj w = (res, w') →
  client.cvs w' = client.cvs w ∧ client.calls w' = client.calls w ∧
  match res with
  | Err _ => w' = w
  | Ok o =>
      let key := metav1.ObjectKeyFromMeta (v1alpha1.DescriptorMeta obj) in
      is_Some (client.cds w !! key) ∧ o = obj ∧
      client.cds w' = <[key := o]> (client.cds w)
  end.
Proof.
  unfold client.Update. intros H.
  destruct (client.Fault c _ _ _); [by simplify_eq|].
  destruct (client.cds w !! _) eqn:E; by simplify_eq.
Qed.

Lemma mutate_spec f key obj o :
  controllerutil.mutate f key obj = Ok o →
  f obj = Ok o ∧ metav1.ObjectKeyFromMeta (v1alpha1.DescriptorMeta o) = key.
Proof.
  unfold controllerutil.mutate. destruct (f obj); [|done].
  case_decide as Hk; [done|]. intros [= ->]. split; [done|].
  by destruct (decide (key = metav1.ObjectKeyFromMeta (v1alpha1.DescriptorMeta o))).
Qed.

(** [CreateOrUpdate] touches the descriptor store at the key of [obj]
    only, and nothing on failure. *)
Lemma CreateOrUpdate_spec c obj f w res w' :
  controllerutil.CreateOrUpdate c obj f w = (res, w') →
  let key := metav1.ObjectKeyFromMeta (v1alpha1.DescriptorMeta obj) in
  client.cvs w' = client.cvs w ∧ client.calls w' = client.calls w ∧
  match res with
  | Err _ => w' = w
  | Ok (op, o) =>
      client.cds w' = <[key := o]> (client.cds w) ∧
      match client.cds w !! key with
      | None =>
          op = controllerutil.OperationResultCreated ∧
          ∃ o0, f obj = Ok o0 ∧ o = client.stamped c o0 ∧
                metav1.ObjectKeyFromMeta (v1alpha1.DescriptorMeta o0) = key
      | Some existing =>
          op ≠ controllerutil.OperationResultCreated ∧
          f existing = Ok o ∧
          metav1.ObjectKeyFromMeta (v1alpha1.DescriptorMeta o) = key ∧
          (op = controllerutil.OperationResultNone → o = existing ∧ w' = w)
      end
  end.
Proof.
  intros H. cbv zeta.
  set (key := metav1.ObjectKeyFromMeta (v1alpha1.DescriptorMeta obj)) in *.
  unfold controllerutil.CreateOrUpdate, client.Get in H. fold key in H.
  destruct (client.Fault c client.VGet _ key);
    [by injection H as <- <-|].
  destruct (client.cds w !! key) as [existing|] eqn:Ecd; simpl in H.
  - destruct (controllerutil.mutate f key existing) as [o|] eqn:Em;
      [|by injection H as <- <-].
    apply mutate_spec in Em as [Hf Hk].
    case_decide as Heq.
    + injection H as <- <-. subst o. rewrite insert_id by done.
      by repeat split.
    + destruct (client.Update c o w) as [[o'|] w1] eqn:Eu;
        apply Update_spec in Eu as (? & ? & Hu); injection H as <- <-; [|by subst].
      destruct Hu as (_ & -> & Hu). rewrite Hk in Hu. by repeat split.
  - destruct (controllerutil.mutate f key obj) as [o|] eqn:Em;
      [|by injection H as <- <-].
    apply mutate_spec in Em as [Hf Hk].
    destruct (client.Create c o w) as [[o'|] w1] eqn:Ec;
      apply Create_spec in Ec as (? & ? & Hc); injection H as <- <-; [|by subst].
    destruct Hc as (_ & -> & Hc). rewrite Hk in Hc. repeat split; try done. eauto.
Qed.

(** ** The record key *)

(** The hash is the FNV-1 offset basis whatever is named: all three
    fields of the hashed struct are unexported and skipped, so only the
    empty type name is hashed. *)
Lemma constructComponentName_hash name version identity :
  hash.Hash (controllers.namingScheme name version identity)
  = Ok 14695981039346656037.
Proof. reflexivity. Qed.

(** Hence the key is the same for every extra identity. *)
Lemma constructComponentName_ignores_identity :
  ∀ (name version : string) (identity1 identity2 : Identity),
    controllers.constructComponentName name version identity1
    = controllers.constructComponentName name version identity2.
Proof. reflexivity. Qed.

(** An exported field does enter the hash: the walk is not constant. *)
Example visitStruct_exported_field :
  hash.visitStruct
    (hash.mkStruct "" [hash.mkField "Version" "" (hash.VString "v0.0.1")])
  ≠ hash.visitStruct
      (hash.mkStruct "" [hash.mkField "Version" "" (hash.VString "v0.0.2")]).
Proof. by vm_compute. Qed.

(** C2.  The code at the failing input: the same component name and
    version with two extra identities that differ in content (none, and
    position = second) are given one and the same key, where the claim
    requires two distinct keys. *)
Theorem constructComponentName_collapses :
  let identity1 : Identity := ∅ in
  let identity2 : Identity := {[ "position" := "second" ]} in
  identity1 ≠ identity2 ∧
  controllers.constructComponentName "github.com/skarlso/embedded" "v0.0.1" identity1
  = Ok "github.com-skarlso-embedded-v0.0.1-14695981039346656037" ∧
  controllers.constructComponentName "github.com/skarlso/embedded" "v0.0.1" identity2
  = Ok "github.com-skarlso-embedded-v0.0.1-14695981039346656037".
Proof.
  split; [|split; reflexivity].
  intros H. apply (f_equal (λ m : Identity, m !! "position")) in H.
  by rewrite lookup_empty, lookup_singleton_eq in H.
Qed.

(** ** The entry point *)

(** [TestComponentVersionReconcile]: no error, one reference in the status,
    named after the declared reference. *)
Example TestComponentVersionReconcile :
  let run := controllers.reconcile 5 fixture.cvr fixture.obj fixture.world in
  snd <$> fst run = Some None ∧
  (v1alpha1.Name <$>
     v1alpha1.References
       (v1alpha1.StatusComponentDescriptor
          (v1alpha1.Status (default fixture.obj (client.cvs (snd run) !! fixture.key)))))
  = ["test-ref-1"].
Proof. by vm_compute. Qed.

(** C10.  When the root object named by the request is not in the store,
    [Reconcile] returns the empty result and no error, and leaves the world
    as it was: no object is written and no call is made on the OCM client. *)
Theorem Reconcile_not_found :
  ∀ fuel r (req : ObjectKey) (w : client.World),
    client.Fault (controllers.Client r) client.VGet client.KComponentVersion req = None →
    client.cvs w !! req = None →
    controllers.Reconcile fuel r req w = (Some (ctrl.empty, None), w).
Proof.
  intros fuel r req w Hfault Hnone.
  unfold controllers.Reconcile, client.GetComponentVersion.
  by rewrite Hfault, Hnone.
Qed.

Lemma Reconcile_not_found_witness :
  controllers.Reconcile 5 fixture.cvr ("default", "absent") fixture.world
  = (Some (ctrl.empty, None), fixture.world).
Proof. apply Reconcile_not_found; reflexivity. Defined.



(** C6, as the code has it.  Neither kind of verification failure is
    recorded on the root's status: both leave the stored root objects as
    they were.  They are told apart by the error [Reconcile] returns, whose
    message differs between a verifier error and a mismatch. *)
Theorem Reconcile_verification_failures_distinct_errors :
  ∀ fuel r (req : ObjectKey) (w : client.World) component,
    client.GetComponentVersion (controllers.Client r) req w = Ok component →
    let requeue := ctrl.requeueAfter (v1alpha1.GetRequeueAfter component) in
    let mismatch :=
      errorsNew "attempted to verify component, but the digest didn't match" in
    (∀ ok e,
        ocmclient.VerifyComponent (controllers.OCMClient r) component = (ok, Some e) →
        ∃ w', controllers.Reconcile fuel r req w
              = (Some (requeue, Some (Errorf "failed to verify component: " e)), w') ∧
              client.cvs w' = client.cvs w) ∧
    (ocmclient.VerifyComponent (controllers.OCMClient r) component = (false, None) →
     ∃ w', controllers.Reconcile fuel r req w = (Some (requeue, Some mismatch), w') ∧
           client.cvs w' = client.cvs w) ∧
    (∀ e, Errorf "failed to verify component: " e ≠ mismatch).
Proof.
  intros fuel r req w component Hget requeue mismatch.
  unfold controllers.Reconcile, controllers.VerifyComponent. rewrite Hget.
  split; [|split].
  - intros ok e ->. by eexists.
  - intros ->. by eexists.
  - intros e H. by apply (f_equal message) in H.
Qed.

Lemma Reconcile_verification_failures_distinct_errors_witness :
  ∃ w', controllers.Reconcile 5 (fixture.reconcilerWith fixture.components false None)
          fixture.key fixture.world
        = (Some (ctrl.requeueAfter fixture.tenMinutes,
                 Some (errorsNew
                         "attempted to verify component, but the digest didn't match")),
           w') ∧
        client.cvs w' = client.cvs fixture.world.
Proof.
  apply (Reconcile_verification_failures_distinct_errors 5
           (fixture.reconcilerWith fixture.components false None)
           fixture.key fixture.world fixture.obj); reflexivity.
Defined.

(** C6 as stated fails: after a mismatch and after a verifier error the
    root object in the store, status included, is the one that was there
    before, so the status does not tell the two apart. *)
Lemma verification_failure_kinds_same_status :
  let mismatch :=
    snd (controllers.Reconcile 5
           (fixture.reconcilerWith fixture.components false None)
           fixture.key fixture.world) in
  let unreachable :=
    snd (controllers.Reconcile 5
           (fixture.reconcilerWith fixture.components false
              (Some (errorsNew "registry unreachable")))
           fixture.key fixture.world) in
  client.cvs mismatch !! fixture.key = Some fixture.obj ∧
  client.cvs unreachable !! fixture.key = Some fixture.obj ∧
  ¬ (v1alpha1.Status <$> client.cvs mismatch !! fixture.key
     ≠ v1alpha1.Status <$> client.cvs unreachable !! fixture.key).
Proof. vm_compute. split; [done|]. split; [done|]. by intros H. Qed.

(** ** The root record *)

Lemma reconcile_mutate_spec r obj cd descriptor o :
  controllers.reconcile_mutate r obj cd descriptor = Ok o →
  v1alpha1.DescriptorSpec o
  = v1alpha1.mkComponentDescriptorSpec (compdesc.Spec cd) (compdesc.GetVersion cd).
Proof.
  unfold controllers.reconcile_mutate.
  destruct (metav1.IsZero _); [|by intros [= <-]].
  destruct (controllerutil.SetOwnerReference _ _ _); [|done]. by intros [= <-].
Qed.

(** C5, as the code has it.  With the expand flag off, [reconcile] fetches
    the root descriptor and nothing else, writes at most the root's own
    record, and returns at the guard without committing the status: the
    stored root objects are those from before. *)
Theorem reconcile_expand_disabled :
  ∀ fuel r obj (w : client.World),
    v1alpha1.Expand (v1alpha1.SpecReferences (v1alpha1.Spec obj)) = false →
    let name := v1alpha1.Component (v1alpha1.Spec obj) in
    let version := v1alpha1.SpecVersion (v1alpha1.Spec obj) in
    ∃ res err w',
      controllers.reconcile fuel r obj w = (Some (res, err), w') ∧
      client.cvs w' = client.cvs w ∧
      client.calls w' =
        client.calls w ++ [ocmclient.CallGetComponentVersion name version] ∧
      match err with
      | Some _ => client.cds w' = client.cds w
      | None =>
          res = ctrl.requeueAfter (v1alpha1.GetRequeueAfter obj) ∧
          ∃ cv cd componentName d,
            ocmclient.GetComponentVersion (controllers.OCMClient r) obj name version
            = Ok cv ∧
            compdesc.ConvertFrom (controllers.Converter r) (ocmclient.GetDescriptor cv)
            = Ok cd ∧
            controllers.constructComponentName (compdesc.GetName cd)
              (compdesc.GetVersion cd) ∅ = Ok componentName ∧
            client.cds w' =
              <[(v1alpha1.GetNamespace obj, componentName) := d]> (client.cds w) ∧
            v1alpha1.DescriptorSpec d
            = v1alpha1.mkComponentDescriptorSpec (compdesc.Spec cd)
                (compdesc.GetVersion cd)
      end.
Proof.
  intros fuel r obj w Hexpand name version.
  unfold controllers.reconcile, controllers.GetComponentVersion.
  fold name version. rewrite Hexpand. simpl negb. cbv iota.
  destruct (ocmclient.GetComponentVersion _ obj name version) as [cv|e] eqn:Hcv;
    [|by eexists _, (Some _), _].
  destruct (compdesc.ConvertFrom _ _) as [cd|e] eqn:Hcd;
    [|by eexists _, (Some _), _].
  destruct (controllers.constructComponentName _ _ _) as [componentName|e] eqn:Hn;
    [|discriminate Hn].
  destruct (controllerutil.CreateOrUpdate _ _ _ _) as [[[op d]|e] w1] eqn:Hcu;
    apply CreateOrUpdate_spec in Hcu as (Hcvs & Hcalls & Hcu).
  - eexists _, None, _. split; [done|]. split; [done|]. split; [done|].
    split; [done|]. exists cv, cd, componentName, d.
    destruct Hcu as [Hcds Hcu]. repeat split; try done.
    simpl in Hcu. destruct (client.cds _ !! _).
    + destruct Hcu as (_ & Hf & _). by apply reconcile_mutate_spec in Hf.
    + destruct Hcu as (_ & o0 & Hf & -> & _). by apply reconcile_mutate_spec in Hf.
  - subst w1. by eexists _, (Some _), _.
Qed.

Lemma reconcile_expand_disabled_witness :
  ∃ res err w',
    controllers.reconcile 5 fixture.cvr (fixture.objWith false)
      (fixture.worldWith (fixture.objWith false)) = (Some (res, err), w') ∧
    client.cvs w' = client.cvs (fixture.worldWith (fixture.objWith false)) ∧
    client.calls w' =
      [ocmclient.CallGetComponentVersion "github.com/skarlso/root" "v0.0.1"].
Proof.
  destruct (reconcile_expand_disabled 5 fixture.cvr (fixture.objWith false)
              (fixture.worldWith (fixture.objWith false)) eq_refl)
    as (res & err & w' & H1 & H2 & H3 & _).
  by exists res, err, w'.
Defined.

(** C5 as stated fails: the root of the test has a child, the expand flag
    is off, the root's record is written and no other, and the status of
    the stored root is still the empty one it had, not a reference to the
    root descriptor with an empty tree. *)
Lemma expand_disabled_status_not_committed :
  let w := fixture.worldWith (fixture.objWith false) in
  let run := controllers.Reconcile 5 fixture.cvr fixture.key w in
  let rootName := "github.com-skarlso-root-v0.0.1-14695981039346656037" in
  fst run = Some (ctrl.requeueAfter fixture.tenMinutes, None) ∧
  size (client.cds (snd run)) = 1%nat ∧
  is_Some (client.cds (snd run) !! ("default", rootName)) ∧
  client.cvs (snd run) !! fixture.key = Some (fixture.objWith false) ∧
  v1alpha1.StatusComponentDescriptor (v1alpha1.Status (fixture.objWith false))
  ≠ v1alpha1.mkReference "github.com/skarlso/root" "v0.0.1" [] ∅
      (meta.mkNamespacedObjectReference rootName "default").
Proof.
  split; [by vm_compute|]. split; [by vm_compute|].
  split; [by vm_compute; eexists|]. split; [by vm_compute|].
  intros H. by apply (f_equal v1alpha1.Name) in H.
Qed.

(** ** The expansion: order *)

Lemma parseReferences_loop_ok
  (P : ocmdesc.ComponentReference → v1alpha1.Reference → Prop)
  body references acc w out w' :
  (∀ ref w1 x w2, body ref w1 = (Some (Ok x), w2) → P ref x) →
  controllers.parseReferences_loop body references acc w = (Some (Ok out), w') →
  ∃ tail, out = acc ++ tail ∧ Forall2 P references tail.
Proof.
  intros Hbody. revert acc w.
  induction references as [|ref references IH]; intros acc w H; simpl in H.
  - injection H as <- <-. exists []. by rewrite app_nil_r.
  - destruct (body ref w) as [[[x|e]|] w1] eqn:Hb; try done.
    apply IH in H as (tail & -> & Htail).
    exists (x :: tail). rewrite <-app_assoc. split; [done|].
    constructor; [by eapply Hbody|done].
Qed.

Lemma parseReferences_body_ok recurse r parent ref w x w' :
  controllers.parseReferences_body recurse r parent ref w = (Some (Ok x), w') →
  ∃ rcv,
    ocmclient.GetComponentVersion (controllers.OCMClient r) parent
      (ocmdesc.ComponentName ref) (ocmdesc.Version ref) = Ok rcv ∧
    v1alpha1.Name x = ocmdesc.Name ref ∧
    v1alpha1.Version x = ocmdesc.Version ref ∧
    v1alpha1.ExtraIdentity x = ocmdesc.ExtraIdentity ref ∧
    let references := ocmdesc.References (ocmclient.GetDescriptor rcv) in
    (references = [] ∧ v1alpha1.References x = []) ∨
    (references ≠ [] ∧
     ∃ w1 w2, recurse references w1 = (Some (Ok (v1alpha1.References x)), w2)).
Proof.
  intros H.
  unfold controllers.parseReferences_body, controllers.GetComponentVersion in H.
  repeat case_match; simplify_eq;
    (eexists; split; [done|]; do 3 (split; [done|])); cbv zeta.
  - right. split; [|by eauto].
    intros E. match goal with l : (0 < length _)%nat |- _ =>
      pose proof l as Hl; rewrite E in Hl; simpl in Hl; lia end.
  - left. split; [|done].
    match goal with n : ¬ (0 < length _)%nat |- _ => pose proof n as Hn end.
    destruct (ocmdesc.References _); [done|]. simpl in Hn. lia.
Qed.

(** C7.  The list [parseReferences] returns mirrors the declared
    references at every level of the tree; in particular its names are the
    declared names, in the declared order. *)
Theorem parseReferences_preserves_order :
  ∀ fuel r parent references (w : client.World) out w',
    controllers.parseReferences fuel r parent references w = (Some (Ok out), w') →
    MirrorsDeclaration r parent references out ∧
    v1alpha1.Name <$> out = ocmdesc.Name <$> references.
Proof.
  intros fuel r parent references w out w' H.
  assert (MirrorsDeclaration r parent references out) as Hm.
  { revert references w out w' H.
    induction fuel as [|fuel IH]; intros references w out w' H; [done|].
    simpl in H.
    apply (parseReferences_loop_ok
             (λ ref x, MirrorsDeclaration r parent [ref] [x])) in H
      as (tail & -> & Htail).
    - simpl. induction Htail as [|ref x references tail Hx _ IHtail];
        [constructor|].
      inversion Hx; subst. by econstructor.
    - intros ref w1 x w2 Hb.
      apply parseReferences_body_ok in Hb
        as (rcv & Hrcv & Hn & Hv & Hi & [[Hr Hx]|[_ (w3 & w4 & Hrec)]]).
      + econstructor; try done; [|constructor]. rewrite Hr, Hx. constructor.
      + econstructor; try done; [|constructor]. by eapply IH. }
  split; [done|].
  clear H. induction Hm; [done|]. simpl. by f_equal.
Qed.

Lemma parseReferences_preserves_order_witness :
  MirrorsDeclaration fixture.familyReconciler fixture.obj fixture.declaredABC
    fixture.familyTree ∧
  v1alpha1.Name <$> fixture.familyTree = ["A"; "B"; "C"].
Proof.
  apply (parseReferences_preserves_order 5 fixture.familyReconciler fixture.obj
           fixture.declaredABC fixture.world fixture.familyTree
           (snd (controllers.parseReferences 5 fixture.familyReconciler fixture.obj
                   fixture.declaredABC fixture.world))).
  by vm_compute.
Defined.

(** ** The expansion: termination *)

Lemma World_eq (w w' : client.World) :
  client.cvs w' = client.cvs w → client.cds w' = client.cds w →
  client.calls w' = client.calls w → w' = w.
Proof. destruct w, w'; simpl; by intros -> -> ->. Qed.

Lemma parseReferences_loop_returns body references acc w :
  (∀ ref w1, ref ∈ references → fst (body ref w1) ≠ None) →
  fst (controllers.parseReferences_loop body references acc w) ≠ None.
Proof.
  revert acc w.
  induction references as [|ref references IH]; intros acc w Hbody; [done|].
  simpl. pose proof (Hbody ref w (list_elem_of_here _ _)) as Hb.
  destruct (body ref w) as [[[x|e]|] w1]; [|done..].
  apply IH. intros ref' w2 Hin. apply Hbody. by right.
Qed.

Lemma parseReferences_body_returns recurse r parent ref w :
  (∀ rcv w1,
      ocmclient.GetComponentVersion (controllers.OCMClient r) parent
        (ocmdesc.ComponentName ref) (ocmdesc.Version ref) = Ok rcv →
      fst (recurse (ocmdesc.References (ocmclient.GetDescriptor rcv)) w1) ≠ None) →
  fst (controllers.parseReferences_body recurse r parent ref w) ≠ None.
Proof.
  intros Hrec.
  unfold controllers.parseReferences_body, controllers.GetComponentVersion.
  repeat case_match; simplify_eq; try done.
  match goal with H : recurse _ ?w0 = (None, _) |- _ =>
    specialize (Hrec _ w0 eq_refl); by rewrite H in Hrec end.
Qed.

Lemma parseReferences_terminates_acyclic r parent rank :
  Acyclic r parent rank →
  ∀ fuel bound references (w : client.World),
    (∀ ref, ref ∈ references →
       (rank (ocmdesc.ComponentName ref) (ocmdesc.Version ref) < bound)%nat) →
    (bound < fuel)%nat →
    fst (controllers.parseReferences fuel r parent references w) ≠ None.
Proof.
  intros Hacyclic fuel.
  induction fuel as [|fuel IH]; intros bound references w Hrank Hfuel; [lia|].
  simpl. apply parseReferences_loop_returns. intros ref w1 Hin.
  apply parseReferences_body_returns. intros rcv w2 Hrcv.
  specialize (Hrank ref Hin).
  apply (IH (rank (ocmdesc.ComponentName ref) (ocmdesc.Version ref))); [|lia].
  intros ref' Hin'. by eapply Hacyclic.
Qed.

(** ** The expansion: what it writes *)

Lemma Extends_refl r parent w : Extends r parent w w.
Proof. split; [done|]. intros k. by left. Qed.

Lemma Extends_trans r parent w1 w2 w3 :
  Extends r parent w1 w2 → Extends r parent w2 w3 → Extends r parent w1 w3.
Proof.
  intros [Hcvs12 H12] [Hcvs23 H23]. split; [congruence|]. intros k.
  destruct (H23 k) as [E23|(Hnone & d & gvk & Hd)].
  - rewrite E23. apply H12.
  - destruct (H12 k) as [E12|(_ & d' & gvk' & Hd' & _)]; [|congruence].
    right. split; [congruence|]. by exists d, gvk.
Qed.

Lemma Extends_logCall r parent w c : Extends r parent w (client.logCall w c).
Proof. split; [done|]. intros k. by left. Qed.

Lemma Extends_StoreOK r parent w w' :
  Extends r parent w w' → StoreOK w → StoreOK w'.
Proof.
  intros [Hcvs Hext] [Hok Hroots]. split; [|by rewrite Hcvs].
  intros k d Hd.
  destruct (Hext k) as [E|(_ & d' & gvk & Hd' & Hk & Ht & _)].
  - apply Hok. congruence.
  - by simplify_eq.
Qed.

Lemma validateOwner_same ns : controllerutil.validateOwner ns ns = None.
Proof. unfold controllerutil.validateOwner. by repeat case_decide. Qed.

Lemma SetOwnerReference_spec owner object scheme o :
  controllerutil.SetOwnerReference owner object scheme = Ok o →
  ∃ gvk,
    scheme !! "ComponentVersion" = Some gvk ∧
    o = v1alpha1.mkComponentDescriptor
          (metav1.mkObjectMeta
             (metav1.Namespace (v1alpha1.DescriptorMeta object))
             (metav1.Name (v1alpha1.DescriptorMeta object))
             (metav1.UID (v1alpha1.DescriptorMeta object))
             (metav1.CreationTimestamp (v1alpha1.DescriptorMeta object))
             (controllerutil.upsertOwnerRef (controllerutil.ownerRefOf gvk owner)
                (metav1.OwnerReferences (v1alpha1.DescriptorMeta object))))
          (v1alpha1.DescriptorSpec object).
Proof.
  unfold controllerutil.SetOwnerReference, apiutil.GVKForObject.
  destruct (controllerutil.validateOwner _ _); [done|].
  destruct (scheme !! "ComponentVersion") as [gvk|]; [|done].
  intros [= <-]. by exists gvk.
Qed.

(** The child upsert: an existing record is left as it is; a free key
    receives the stamped descriptor. *)
Lemma CreateOrUpdate_keep c obj w res w' :
  controllerutil.CreateOrUpdate c obj (λ d, Ok d) w = (res, w') →
  let key := metav1.ObjectKeyFromMeta (v1alpha1.DescriptorMeta obj) in
  match res with
  | Err _ => w' = w
  | Ok (op, o) =>
      match client.cds w !! key with
      | Some existing => w' = w ∧ o = existing
      | None =>
          o = client.stamped c obj ∧
          client.cvs w' = client.cvs w ∧ client.calls w' = client.calls w ∧
          client.cds w' = <[key := o]> (client.cds w)
      end
  end.
Proof.
  intros H. apply CreateOrUpdate_spec in H as (Hcvs & Hcalls & H). cbv zeta.
  destruct res as [[op o]|e]; [|done]. destruct H as [Hcds H].
  destruct (client.cds w !! _) as [existing|] eqn:E.
  - destruct H as (_ & [= <-] & _). split; [|done].
    apply World_eq; [done| |done]. by rewrite Hcds, insert_id.
  - destruct H as (_ & o0 & [= <-] & -> & _). by repeat split.
Qed.

Lemma CreateOrUpdate_child_extends r parent componentName spec gvk w res w' :
  controllers.Scheme r !! "ComponentVersion" = Some gvk →
  controllerutil.CreateOrUpdate (controllers.Client r)
    (v1alpha1.mkComponentDescriptor
       (metav1.mkObjectMeta (v1alpha1.GetNamespace parent) componentName "" None
          (controllerutil.upsertOwnerRef (controllerutil.ownerRefOf gvk parent) []))
       spec)
    (λ d, Ok d) w = (res, w') →
  Extends r parent w w'.
Proof.
  intros Hgvk Hcu. apply CreateOrUpdate_keep in Hcu. cbv zeta in Hcu.
  change (metav1.ObjectKeyFromMeta _)
    with (v1alpha1.GetNamespace parent, componentName) in Hcu.
  destruct res as [[op o]|e]; [|subst; apply Extends_refl].
  destruct (client.cds w !! _) as [existing|] eqn:E.
  - destruct Hcu as [-> _]. apply Extends_refl.
  - destruct Hcu as (-> & Hcvs & _ & Hcds). split; [done|]. intros k.
    rewrite Hcds.
    destruct (decide (k = (v1alpha1.GetNamespace parent, componentName)))
      as [->|Hne]; [|left; by rewrite lookup_insert_ne].
    right. split; [done|]. eexists _, gvk. rewrite lookup_insert_eq.
    by repeat split.
Qed.

Lemma parseReferences_body_extends recurse r parent ref w res w' :
  (∀ references w1 res1 w2,
      recurse references w1 = (res1, w2) → Extends r parent w1 w2) →
  controllers.parseReferences_body recurse r parent ref w = (res, w') →
  Extends r parent w w'.
Proof.
  intros Hrec H.
  unfold controllers.parseReferences_body, controllers.GetComponentVersion in H.
  set (w0 := client.logCall w _) in H.
  assert (Extends r parent w w0) as Hw0 by apply Extends_logCall.
  destruct (ocmclient.GetComponentVersion _ _ _ _) as [rcv|]; [|by simplify_eq].
  destruct (compdesc.ConvertFrom _ _) as [cd|]; [|by simplify_eq].
  destruct (controllers.constructComponentName _ _ _) as [componentName|];
    [|by simplify_eq].
  destruct (controllerutil.SetOwnerReference _ _ _) as [descriptor|] eqn:Hown;
    [|by simplify_eq].
  apply SetOwnerReference_spec in Hown as (gvk & Hgvk & ->).
  destruct (controllerutil.CreateOrUpdate _ _ _ _) as [res1 w1] eqn:Hcu.
  apply (CreateOrUpdate_child_extends _ _ _ _ _ _ _ _ Hgvk) in Hcu.
  assert (Extends r parent w w1) as Hw
    by exact (Extends_trans _ _ _ _ _ Hw0 Hcu).
  destruct res1 as [[op o]|e]; [|by simplify_eq].
  case_decide; [|by simplify_eq].
  destruct (recurse _ w1) as [[[out|e]|] w2] eqn:Hr;
    apply Hrec in Hr; simplify_eq; exact (Extends_trans _ _ _ _ _ Hw Hr).
Qed.

Lemma parseReferences_loop_extends body r parent references acc w res w' :
  (∀ ref w1 res1 w2, body ref w1 = (res1, w2) → Extends r parent w1 w2) →
  controllers.parseReferences_loop body references acc w = (res, w') →
  Extends r parent w w'.
Proof.
  intros Hbody. revert acc w.
  induction references as [|ref references IH]; intros acc w H; simpl in H.
  - simplify_eq. apply Extends_refl.
  - destruct (body ref w) as [[[x|e]|] w1] eqn:Hb; apply Hbody in Hb;
      [|by simplify_eq..].
    apply IH in H. exact (Extends_trans _ _ _ _ _ Hb H).
Qed.

(** Whatever its outcome, [parseReferences] only adds records: no stored
    descriptor is changed, and each record it adds is owned by the root. *)
Lemma parseReferences_extends fuel r parent references w res w' :
  controllers.parseReferences fuel r parent references w = (res, w') →
  Extends r parent w w'.
Proof.
  revert references w res w'.
  induction fuel as [|fuel IH]; intros references w res w' H; simpl in H.
  - simplify_eq. apply Extends_refl.
  - eapply parseReferences_loop_extends; [|done].
    intros ref w1 res1 w2. by apply parseReferences_body_extends.
Qed.

(** ** The expansion: cycles *)

Lemma CreateOrUpdate_keep_total c obj w :
  (∀ verb key, client.Fault c verb client.KComponentDescriptor key = None) →
  StoreOK w →
  ∃ op o w', controllerutil.CreateOrUpdate c obj (λ d, Ok d) w = (Ok (op, o), w').
Proof.
  intros Hfault [Hok _].
  unfold controllerutil.CreateOrUpdate, client.Get, controllerutil.mutate.
  rewrite Hfault.
  destruct (client.cds w !! _) as [existing|] eqn:E; simpl.
  - apply Hok in E as [-> _].
    rewrite decide_False by (by intros []).
    rewrite decide_True by done. by eexists _, _, _.
  - rewrite decide_False by (by intros []).
    unfold client.Create. rewrite Hfault, E. by eexists _, _, _.
Qed.

Lemma parseReferences_body_no_error recurse r parent ref w rcv cd :
  NeverFails r → StoreOK w →
  ocmclient.GetComponentVersion (controllers.OCMClient r) parent
    (ocmdesc.ComponentName ref) (ocmdesc.Version ref) = Ok rcv →
  compdesc.ConvertFrom (controllers.Converter r) (ocmclient.GetDescriptor rcv)
  = Ok cd →
  (∀ w1 e, StoreOK w1 →
     fst (recurse (ocmdesc.References (ocmclient.GetDescriptor rcv)) w1)
     ≠ Some (Err e)) →
  ∀ e, fst (controllers.parseReferences_body recurse r parent ref w) ≠ Some (Err e).
Proof.
  intros ([gvk Hgvk] & Hfault) Hok Hrcv Hcd Hrec e.
  unfold controllers.parseReferences_body, controllers.GetComponentVersion.
  set (w0 := client.logCall w _).
  assert (StoreOK w0) as Hok0 by done.
  rewrite Hrcv, Hcd.
  destruct (controllers.constructComponentName _ _ _) as [componentName|] eqn:Hn;
    [|discriminate Hn].
  unfold controllerutil.SetOwnerReference, apiutil.GVKForObject.
  simpl metav1.Namespace. rewrite validateOwner_same, Hgvk.
  match goal with |- context [controllerutil.CreateOrUpdate ?c ?d ?f w0] =>
    destruct (CreateOrUpdate_keep_total c d w0) as (op & o & w1 & Hcu); [done..|]
  end.
  simpl in Hcu |- *. rewrite Hcu.
  apply (CreateOrUpdate_child_extends _ _ _ _ _ _ _ _ Hgvk) in Hcu.
  apply Extends_StoreOK in Hcu; [|done].
  case_decide; [|done].
  specialize (Hrec w1).
  destruct (recurse _ w1) as [[[out|e']|] w2]; [done| |done].
  by destruct (Hrec e' Hcu).
Qed.

(** An iteration on a reference that is fetched and converted, and whose
    descriptor declares references on which the recursion does not
    return, does not return either. *)
Lemma parseReferences_body_diverges recurse r parent ref w rcv cd :
  NeverFails r → StoreOK w →
  ocmclient.GetComponentVersion (controllers.OCMClient r) parent
    (ocmdesc.ComponentName ref) (ocmdesc.Version ref) = Ok rcv →
  compdesc.ConvertFrom (controllers.Converter r) (ocmclient.GetDescriptor rcv)
  = Ok cd →
  ocmdesc.References (ocmclient.GetDescriptor rcv) ≠ [] →
  (∀ w1, StoreOK w1 →
     fst (recurse (ocmdesc.References (ocmclient.GetDescriptor rcv)) w1) = None) →
  fst (controllers.parseReferences_body recurse r parent ref w) = None.
Proof.
  intros ([gvk Hgvk] & Hfault) Hok Hrcv Hcd Hne Hrec.
  unfold controllers.parseReferences_body, controllers.GetComponentVersion.
  set (w0 := client.logCall w _).
  assert (StoreOK w0) as Hok0 by done.
  rewrite Hrcv, Hcd.
  destruct (controllers.constructComponentName _ _ _) as [componentName|] eqn:Hn;
    [|discriminate Hn].
  unfold controllerutil.SetOwnerReference, apiutil.GVKForObject.
  simpl metav1.Namespace. rewrite validateOwner_same, Hgvk.
  match goal with |- context [controllerutil.CreateOrUpdate ?c ?d ?f w0] =>
    destruct (CreateOrUpdate_keep_total c d w0) as (op & o & w1 & Hcu); [done..|]
  end.
  simpl in Hcu |- *. rewrite Hcu.
  apply (CreateOrUpdate_child_extends _ _ _ _ _ _ _ _ Hgvk) in Hcu.
  apply Extends_StoreOK in Hcu; [|done].
  case_decide as Hlen.
  - specialize (Hrec w1 Hcu).
    by destruct (recurse _ w1) as [[[out|e']|] w2].
  - destruct (ocmdesc.References _); [done|simpl in Hlen; lia].
Qed.

(** The loop over [before ++ rest], when no iteration on [before] fails:
    it does not return, or it reaches [rest] over a well-formed store. *)
Lemma parseReferences_loop_prefix body r parent (Q : ocmdesc.ComponentReference → Prop)
    before rest acc w :
  (∀ ref w1 e, Q ref → StoreOK w1 → fst (body ref w1) ≠ Some (Err e)) →
  (∀ ref w1 res w2, body ref w1 = (res, w2) → Extends r parent w1 w2) →
  (∀ x, x ∈ before → Q x) → StoreOK w →
  fst (controllers.parseReferences_loop body (before ++ rest) acc w) = None ∨
  ∃ acc' w1,
    StoreOK w1 ∧
    controllers.parseReferences_loop body (before ++ rest) acc w
    = controllers.parseReferences_loop body rest acc' w1.
Proof.
  intros Hbody Hext. revert acc w.
  induction before as [|x before IH]; intros acc w HQ Hok.
  - right. by exists acc, w.
  - simpl. pose proof (Hbody x w) as Hb.
    destruct (body x w) as [[[y|e']|] w1] eqn:E.
    + apply IH.
      * intros x' Hx'. apply HQ. by right.
      * eapply Extends_StoreOK; [|done]. by eapply Hext.
    + destruct (Hb e'); [apply HQ; by left|done..].
    + by left.
Qed.

Lemma parseReferences_loop_no_error body r parent
    (Q : ocmdesc.ComponentReference → Prop) references acc w :
  (∀ ref w1 e, Q ref → StoreOK w1 → fst (body ref w1) ≠ Some (Err e)) →
  (∀ ref w1 res w2, body ref w1 = (res, w2) → Extends r parent w1 w2) →
  (∀ x, x ∈ references → Q x) → StoreOK w →
  ∀ e, fst (controllers.parseReferences_loop body references acc w) ≠ Some (Err e).
Proof.
  intros Hbody Hext HQ Hok e.
  destruct (parseReferences_loop_prefix body r parent Q references [] acc w)
    as [Hnone|(acc' & w1 & _ & Heq)]; try done;
    rewrite app_nil_r in *.
  - by rewrite Hnone.
  - by rewrite Heq.
Qed.

Lemma parseReferences_body_extends_all fuel r parent ref w1 res w2 :
  controllers.parseReferences_body (controllers.parseReferences fuel r parent)
    r parent ref w1 = (res, w2) →
  Extends r parent w1 w2.
Proof.
  apply parseReferences_body_extends.
  intros ????. apply parseReferences_extends.
Qed.

Lemma parseReferences_no_error fuel r parent Q :
  NeverFails r → Expands r parent Q →
  ∀ references w e, (∀ x, x ∈ references → Q x) → StoreOK w →
    fst (controllers.parseReferences fuel r parent references w) ≠ Some (Err e).
Proof.
  intros Hnf HQ.
  induction fuel as [|fuel IH]; intros references w e Hin Hok; [done|].
  simpl. apply (parseReferences_loop_no_error _ r parent Q); [| |done..].
  - intros ref w1 e1 Href Hok1.
    destruct (HQ ref Href) as (rcv & cd & Hrcv & Hcd & Hsub).
    apply (parseReferences_body_no_error _ r parent ref w1 rcv cd); try done.
    intros w2 e2 Hok2. by apply IH.
  - intros ref w1 res w2. apply parseReferences_body_extends_all.
Qed.

(** A walk that reaches a reference on a cycle does not return. *)
Lemma parseReferences_diverges r parent Q P :
  NeverFails r → Expands r parent Q → OnCycle r parent Q P →
  ∀ fuel before ref after (w : client.World),
    StoreOK w → (∀ x, x ∈ before → Q x) → P ref →
    fst (controllers.parseReferences fuel r parent (before ++ ref :: after) w) = None.
Proof.
  intros Hnf HQ Hcycle fuel.
  induction fuel as [|fuel IH]; intros before ref after w Hok Hbefore HP; [done|].
  simpl.
  destruct (parseReferences_loop_prefix
              (controllers.parseReferences_body
                 (controllers.parseReferences fuel r parent) r parent)
              r parent Q before (ref :: after) [] w)
    as [Hnone|(acc' & w1 & Hok1 & ->)]; try done.
  - intros x w1 e1 Hx Hok1.
    destruct (HQ x Hx) as (rcv & cd & Hrcv & Hcd & Hsub).
    apply (parseReferences_body_no_error _ r parent x w1 rcv cd); try done.
    intros w2 e2 Hok2. by apply (parseReferences_no_error fuel r parent Q).
  - intros x w1 res w2. apply parseReferences_body_extends_all.
  - destruct (Hcycle ref HP)
      as (rcv & cd & before' & ref' & after' & Hrcv & Hcd & Hrefs & HQ' & HP').
    assert (fst (controllers.parseReferences_body
                   (controllers.parseReferences fuel r parent) r parent ref w1)
            = None) as Hb.
    { apply (parseReferences_body_diverges _ r parent ref w1 rcv cd); try done.
      - rewrite Hrefs. by destruct before'.
      - intros w2 Hok2. rewrite Hrefs. by apply IH. }
    simpl.
    by destruct (controllers.parseReferences_body _ r parent ref w1)
      as [[[x|e]|] w2].
Qed.

(** C9.  The recursion is bounded by the data alone.  Over an acyclic
    reference graph [parseReferences] returns once the budget exceeds the
    rank of the declared references.  When a declared reference lies on a
    cycle, it exhausts every budget, provided the walk gets there: the
    cluster does not fail and the references declared before the cycle's,
    at each level, expand without failure. *)
Theorem parseReferences_termination :
  (∀ r parent rank references,
      Acyclic r parent rank →
      ∃ fuel0, ∀ fuel (w : client.World), (fuel0 ≤ fuel)%nat →
        fst (controllers.parseReferences fuel r parent references w) ≠ None) ∧
  (∀ r parent Q P before ref after (w : client.World),
      NeverFails r → StoreOK w → Expands r parent Q → OnCycle r parent Q P →
      (∀ x, x ∈ before → Q x) → P ref →
      ∀ fuel,
        fst (controllers.parseReferences fuel r parent (before ++ ref :: after) w)
        = None).
Proof.
  split.
  - intros r parent rank references Hacyclic.
    set (ranks := (λ ref, rank (ocmdesc.ComponentName ref) (ocmdesc.Version ref))
                    <$> references).
    exists (S (S (max_list ranks))). intros fuel w Hfuel.
    apply (parseReferences_terminates_acyclic r parent rank Hacyclic fuel
             (S (max_list ranks))); [|lia].
    intros ref Hin.
    assert (rank (ocmdesc.ComponentName ref) (ocmdesc.Version ref) ∈ ranks) as Hr
      by (apply list_elem_of_fmap; by exists ref).
    apply max_list_elem_of_le in Hr. lia.
  - intros r parent Q P before ref after w Hnf Hok HQ Hcycle Hbefore HP fuel.
    by apply (parseReferences_diverges r parent Q P).
Qed.

Lemma family_lookup name d :
  fixture.family !! name = Some d →
  (name = "github.com/skarlso/root" ∧ ocmdesc.References d = fixture.declaredABC) ∨
  (name = "acme/b" ∧ ocmdesc.References d = [fixture.declare "D" "acme/d"]) ∨
  (name ≠ "github.com/skarlso/root" ∧ name ≠ "acme/b" ∧ ocmdesc.References d = []).
Proof.
  unfold fixture.family. intros H.
  repeat (apply lookup_insert_Some in H as [[<- <-]|[? H]];
          [by auto 6|]).
  apply lookup_singleton_Some in H as [<- <-]. by auto 6.
Qed.

Lemma family_acyclic :
  Acyclic fixture.familyReconciler fixture.obj fixture.familyRank.
Proof.
  intros name version rcv H ref Hin. simpl in H.
  destruct (fixture.family !! name) as [d|] eqn:Hd; [|done].
  injection H as <-. simpl in Hin.
  apply family_lookup in Hd as [[-> Hr]|[[-> Hr]|(? & ? & Hr)]];
    rewrite Hr in Hin.
  - apply list_elem_of_In in Hin. simpl in Hin.
    destruct Hin as [<-|[<-|[<-|[]]]]; vm_compute; lia.
  - apply list_elem_of_In in Hin. simpl in Hin.
    destruct Hin as [<-|[]]; vm_compute; lia.
  - by apply not_elem_of_nil in Hin.
Qed.

Lemma fixture_world_StoreOK : StoreOK fixture.world.
Proof.
  split.
  - intros k d H. simpl in H. by rewrite lookup_empty in H.
  - intros k o H. simpl in H. by apply lookup_singleton_Some in H as [<- <-].
Qed.

Lemma fixture_NeverFails cv verified verifyErr :
  NeverFails (fixture.reconcilerWith cv verified verifyErr).
Proof.
  split; [|done]. simpl. unfold fixture.scheme. by rewrite lookup_singleton_eq.
Qed.

Lemma loop_Expands :
  Expands fixture.loopReconciler fixture.obj (λ ref, ref = fixture.leaf).
Proof.
  intros ref ->. eexists _, _. split; [by vm_compute|]. split; [done|].
  intros ref' Hin. by apply not_elem_of_nil in Hin.
Qed.

Lemma loop_OnCycle :
  OnCycle fixture.loopReconciler fixture.obj (λ ref, ref = fixture.leaf)
    (λ ref, ref = fixture.ping ∨ ref = fixture.pong).
Proof.
  intros ref [->| ->].
  - eexists _, _, [], fixture.pong, [].
    split; [by vm_compute|]. split; [done|]. split; [done|].
    split; [|by right]. intros x Hx. by apply not_elem_of_nil in Hx.
  - eexists _, _, [], fixture.ping, [].
    split; [by vm_compute|]. split; [done|]. split; [done|].
    split; [|by left]. intros x Hx. by apply not_elem_of_nil in Hx.
Qed.

Lemma parseReferences_termination_witness :
  (∃ fuel0, ∀ fuel (w : client.World), (fuel0 ≤ fuel)%nat →
     fst (controllers.parseReferences fuel fixture.familyReconciler fixture.obj
            fixture.declaredABC w) ≠ None) ∧
  (∀ fuel,
     fst (controllers.parseReferences fuel fixture.loopReconciler fixture.obj
            ([fixture.leaf] ++ fixture.ping :: [fixture.gone]) fixture.world)
     = None).
Proof.
  split.
  - exact (proj1 parseReferences_termination fixture.familyReconciler fixture.obj
             fixture.familyRank fixture.declaredABC family_acyclic).
  - apply (proj2 parseReferences_termination fixture.loopReconciler fixture.obj
             (λ ref, ref = fixture.leaf)
             (λ ref, ref = fixture.ping ∨ ref = fixture.pong)
             [fixture.leaf] fixture.ping [fixture.gone] fixture.world
             (fixture_NeverFails _ _ _) fixture_world_StoreOK loop_Expands
             loop_OnCycle).
    + intros x Hx. by apply list_elem_of_singleton in Hx.
    + by left.
Defined.

(** ** The reconcile as a whole: what it writes *)

Lemma PatchStatus_cds c obj w res w' :
  client.PatchStatus c obj w = (res, w') → client.cds w' = client.cds w.
Proof.
  unfold client.PatchStatus. intros H.
  destruct (client.Fault c _ _ _); [by simplify_eq|].
  destruct (client.cvs w !! _); by simplify_eq.
Qed.

(** The root upsert of [reconcile]: a record that exists keeps its
    metadata and receives the fetched specification; a new record is owned
    by the root. *)
Lemma root_upsert_spec r obj cd componentName w op d wr :
  StoreOK w →
  controllerutil.CreateOrUpdate (controllers.Client r)
    (controllers.newDescriptor (v1alpha1.GetNamespace obj) componentName
       (v1alpha1.mkComponentDescriptorSpec "" ""))
    (controllers.reconcile_mutate r obj cd) w = (Ok (op, d), wr) →
  let key := (v1alpha1.GetNamespace obj, componentName) in
  let spec :=
    v1alpha1.mkComponentDescriptorSpec (compdesc.Spec cd) (compdesc.GetVersion cd) in
  client.cvs wr = client.cvs w ∧ client.calls wr = client.calls w ∧
  client.cds wr = <[key := d]> (client.cds w) ∧
  metav1.ObjectKeyFromMeta (v1alpha1.DescriptorMeta d) = key ∧
  metav1.CreationTimestamp (v1alpha1.DescriptorMeta d) ≠ None ∧
  match client.cds w !! key with
  | Some existing => d = controllers.withSpec existing spec
  | None =>
      v1alpha1.DescriptorSpec d = spec ∧
      ∃ gvk, controllers.Scheme r !! "ComponentVersion" = Some gvk ∧
             metav1.OwnerReferences (v1alpha1.DescriptorMeta d)
             = [controllerutil.ownerRefOf gvk obj]
  end.
Proof.
  intros [Hok _] H. apply CreateOrUpdate_spec in H as (Hcvs & Hcalls & Hcds & H).
  cbv zeta.
  change (metav1.ObjectKeyFromMeta
            (v1alpha1.DescriptorMeta (controllers.newDescriptor _ _ _)))
    with (v1alpha1.GetNamespace obj, componentName) in *.
  do 3 (split; [done|]).
  destruct (client.cds w !! _) as [existing|] eqn:E.
  - destruct H as (_ & Hf & Hk & _). apply Hok in E as [_ Hts].
    unfold controllers.reconcile_mutate in Hf.
    destruct (metav1.CreationTimestamp _) as [z|] eqn:Ez; [|done].
    simpl in Hf. injection Hf as <-. repeat split; try done.
    simpl. by rewrite Ez.
  - destruct H as (_ & o0 & Hf & -> & Hk).
    unfold controllers.reconcile_mutate in Hf. simpl in Hf.
    destruct (controllerutil.SetOwnerReference _ _ _) as [o1|] eqn:Hown; [|done].
    injection Hf as <-.
    apply SetOwnerReference_spec in Hown as (gvk & Hgvk & ->).
    repeat split; try done. by exists gvk.
Qed.

Lemma reconcile_inv fuel r obj w out w' :
  controllers.reconcile fuel r obj w = (out, w') →
  let name := v1alpha1.Component (v1alpha1.Spec obj) in
  let version := v1alpha1.SpecVersion (v1alpha1.Spec obj) in
  let w0 := client.logCall w (ocmclient.CallGetComponentVersion name version) in
  (w' = w0 ∧ ∃ res e, out = Some (res, Some e)) ∨
  ∃ cv cd componentName op d wr wp,
    ocmclient.GetComponentVersion (controllers.OCMClient r) obj name version = Ok cv ∧
    compdesc.ConvertFrom (controllers.Converter r) (ocmclient.GetDescriptor cv) = Ok cd ∧
    controllers.constructComponentName (compdesc.GetName cd) (compdesc.GetVersion cd) ∅
    = Ok componentName ∧
    controllerutil.CreateOrUpdate (controllers.Client r)
      (controllers.newDescriptor (v1alpha1.GetNamespace obj) componentName
         (v1alpha1.mkComponentDescriptorSpec "" ""))
      (controllers.reconcile_mutate r obj cd) w0 = (Ok (op, d), wr) ∧
    Extends r obj wr wp ∧ client.cds w' = client.cds wp.
Proof.
  intros H name version w0.
  unfold controllers.reconcile, controllers.GetComponentVersion in H.
  fold name version w0 in H.
  destruct (ocmclient.GetComponentVersion _ obj name version) as [cv|e] eqn:Hcv;
    [|left; simplify_eq; by eauto].
  destruct (compdesc.ConvertFrom _ _) as [cd|e] eqn:Hcd;
    [|left; simplify_eq; by eauto].
  destruct (controllers.constructComponentName _ _ _) as [componentName|e] eqn:Hn;
    [|left; simplify_eq; by eauto].
  destruct (controllerutil.CreateOrUpdate _ _ _ _) as [[[op d]|e] wr] eqn:Hcu.
  2:{ apply CreateOrUpdate_spec in Hcu as (_ & _ & ->).
      left; simplify_eq; by eauto. }
  right. exists cv, cd, componentName, op, d, wr.
  destruct (negb _).
  { exists wr. simplify_eq. repeat split; try done. apply Extends_refl. }
  destruct (controllers.parseReferences _ _ _ _ _) as [pres wp] eqn:Hp.
  exists wp. do 4 (split; [done|]).
  split; [by eapply parseReferences_extends|].
  destruct pres as [[tree|e]|]; [|by simplify_eq..].
  destruct (patch.NewHelper _ _) as [h|e]; [|by simplify_eq].
  unfold patch.Patch in H.
  destruct (client.PatchStatus _ _ _) as [[[]|e] wq] eqn:Hq;
    apply PatchStatus_cds in Hq; by simplify_eq.
Qed.

(** C8.  After [Reconcile], a descriptor record that existed before has
    the owners it had, and a record that is new has one owner: the root
    object of the request, whatever its depth in the tree. *)
Theorem Reconcile_flat_ownership :
  ∀ fuel r (req : ObjectKey) (w : client.World) out w',
    StoreOK w →
    controllers.Reconcile fuel r req w = (out, w') →
    ∀ k d', client.cds w' !! k = Some d' →
      match client.cds w !! k with
      | Some d =>
          metav1.OwnerReferences (v1alpha1.DescriptorMeta d')
          = metav1.OwnerReferences (v1alpha1.DescriptorMeta d)
      | None =>
          ∃ root gvk,
            client.cvs w !! req = Some root ∧
            controllers.Scheme r !! "ComponentVersion" = Some gvk ∧
            metav1.OwnerReferences (v1alpha1.DescriptorMeta d')
            = [controllerutil.ownerRefOf gvk root]
      end.
Proof.
  intros fuel r req w out w' Hok H k d' Hd'.
  unfold controllers.Reconcile, client.GetComponentVersion in H.
  destruct (client.Fault _ _ _ _); [simplify_eq/=; by rewrite Hd'|].
  destruct (client.cvs w !! req) as [root|] eqn:Hroot;
    [|simplify_eq/=; by rewrite Hd'].
  unfold controllers.VerifyComponent in H.
  destruct (ocmclient.VerifyComponent _ _) as [ok [e|]];
    [simplify_eq/=; by rewrite Hd'|].
  destruct ok; simpl in H; [|simplify_eq/=; by rewrite Hd'].
  apply reconcile_inv in H
    as [[-> _]|(cv & cd & componentName & op & d & wr & wp & _ & _ & _ & Hcu
                & [_ Hext] & Hcds)]; [simpl in Hd'; by rewrite Hd'|].
  apply root_upsert_spec in Hcu as (_ & _ & Hwr & _ & _ & Hd); [|done].
  rewrite Hcds in Hd'. simpl in Hwr, Hd.
  destruct (Hext k) as [E|(Hnone & d2 & gvk & Hd2 & _ & _ & Hgvk & Hown)].
  - rewrite E, Hwr in Hd'.
    destruct (decide (k = (v1alpha1.GetNamespace root, componentName))) as [->|Hne].
    + rewrite lookup_insert_eq in Hd'. injection Hd' as <-.
      destruct (client.cds w !! _) as [existing|]; [by subst|].
      destruct Hd as (_ & gvk & Hgvk & Hown). by exists root, gvk.
    + rewrite lookup_insert_ne in Hd' by done. by rewrite Hd'.
  - rewrite Hwr in Hnone. apply lookup_insert_None in Hnone as [Hnone _].
    rewrite Hnone. exists root, gvk. by simplify_eq.
Qed.

Lemma Reconcile_flat_ownership_witness :
  ∃ root gvk,
    client.cvs fixture.world !! fixture.key = Some root ∧
    controllers.Scheme fixture.cvr !! "ComponentVersion" = Some gvk ∧
    metav1.OwnerReferences (v1alpha1.DescriptorMeta fixture.ownedEmbedded)
    = [controllerutil.ownerRefOf gvk root].
Proof.
  exact (Reconcile_flat_ownership 5 fixture.cvr fixture.key fixture.world
           (fst (controllers.Reconcile 5 fixture.cvr fixture.key fixture.world))
           (snd (controllers.Reconcile 5 fixture.cvr fixture.key fixture.world))
           fixture_world_StoreOK (surjective_pairing _)
           fixture.embeddedKey fixture.ownedEmbedded
           ltac:(by vm_compute)).
Defined.

(** C4, as the code has it.  The root upsert updates an existing record in
    place: it keeps its metadata and receives the specification of the
    descriptor just fetched and converted.  The child upsert of the
    expansion leaves every existing record as it is. *)
Theorem reconcile_refreshes_root_keeps_children :
  (∀ fuel r obj (w : client.World) res w',
      StoreOK w →
      controllers.reconcile fuel r obj w = (Some (res, None), w') →
      ∃ cv cd componentName,
        ocmclient.GetComponentVersion (controllers.OCMClient r) obj
          (v1alpha1.Component (v1alpha1.Spec obj))
          (v1alpha1.SpecVersion (v1alpha1.Spec obj)) = Ok cv ∧
        compdesc.ConvertFrom (controllers.Converter r) (ocmclient.GetDescriptor cv)
        = Ok cd ∧
        controllers.constructComponentName (compdesc.GetName cd)
          (compdesc.GetVersion cd) ∅ = Ok componentName ∧
        ∀ existing,
          client.cds w !! (v1alpha1.GetNamespace obj, componentName) = Some existing →
          client.cds w' !! (v1alpha1.GetNamespace obj, componentName)
          = Some (controllers.withSpec existing
                    (v1alpha1.mkComponentDescriptorSpec (compdesc.Spec cd)
                       (compdesc.GetVersion cd)))) ∧
  (∀ fuel r parent references (w : client.World) res w' k existing,
      controllers.parseReferences fuel r parent references w = (res, w') →
      client.cds w !! k = Some existing →
      client.cds w' !! k = Some existing).
Proof.
  split.
  - intros fuel r obj w res w' Hok H.
    apply reconcile_inv in H
      as [(_ & ? & ? & [=])|(cv & cd & componentName & op & d & wr & wp & Hcv & Hcd
                             & Hn & Hcu & [_ Hext] & Hcds)].
    exists cv, cd, componentName. do 3 (split; [done|]).
    intros existing He.
    apply root_upsert_spec in Hcu as (_ & _ & Hwr & _ & _ & Hd); [|done].
    simpl in Hwr, Hd. rewrite He in Hd. subst d. rewrite Hcds.
    destruct (Hext (v1alpha1.GetNamespace obj, componentName))
      as [->|[Hnone _]]; rewrite Hwr, ?lookup_insert_eq in *; done.
  - intros fuel r parent references w res w' k existing H He.
    apply parseReferences_extends in H as [_ Hext].
    destruct (Hext k) as [->|[Hnone _]]; congruence.
Qed.

Lemma fixture_staleWorld_StoreOK : StoreOK fixture.staleWorld.
Proof.
  split.
  - intros k d H. simpl in H.
    apply lookup_insert_Some in H as [[<- <-]|[_ H]]; [done|].
    by apply lookup_singleton_Some in H as [<- <-].
  - intros k o H. simpl in H. by apply lookup_singleton_Some in H as [<- <-].
Qed.

Lemma reconcile_refreshes_root_keeps_children_witness :
  (∃ cv cd componentName,
      ocmclient.GetComponentVersion (controllers.OCMClient fixture.cvr) fixture.obj
        "github.com/skarlso/root" "v0.0.1" = Ok cv ∧
      compdesc.ConvertFrom (controllers.Converter fixture.cvr)
        (ocmclient.GetDescriptor cv) = Ok cd ∧
      controllers.constructComponentName (compdesc.GetName cd)
        (compdesc.GetVersion cd) ∅ = Ok componentName ∧
      ∀ existing,
        client.cds fixture.staleWorld !! ("default", componentName) = Some existing →
        client.cds (snd (controllers.reconcile 5 fixture.cvr fixture.obj
                           fixture.staleWorld))
          !! ("default", componentName)
        = Some (controllers.withSpec existing
                  (v1alpha1.mkComponentDescriptorSpec (compdesc.Spec cd)
                     (compdesc.GetVersion cd)))) ∧
  client.cds (snd (controllers.parseReferences 5 fixture.cvr fixture.obj
                     (ocmdesc.References fixture.root) fixture.staleWorld))
    !! fixture.embeddedKey
  = Some (fixture.stale fixture.embeddedKey "stale-embedded-spec").
Proof.
  split.
  - exact (proj1 reconcile_refreshes_root_keeps_children 5%nat fixture.cvr
             fixture.obj fixture.staleWorld
             (ctrl.requeueAfter fixture.tenMinutes)
             (snd (controllers.reconcile 5 fixture.cvr fixture.obj fixture.staleWorld))
             fixture_staleWorld_StoreOK ltac:(by vm_compute)).
  - exact (proj2 reconcile_refreshes_root_keeps_children 5%nat fixture.cvr
             fixture.obj (ocmdesc.References fixture.root) fixture.staleWorld _ _
             fixture.embeddedKey _ (surjective_pairing _) ltac:(by vm_compute)).
Defined.

(** C4 as stated fails for child nodes: the child's record exists with an
    older payload, the reconcile succeeds and refreshes the root's record,
    and the child's record still holds the older payload, not the one of
    the descriptor just fetched. *)
Lemma child_record_not_refreshed :
  let run := controllers.Reconcile 5 fixture.cvr fixture.key fixture.staleWorld in
  fst run = Some (ctrl.requeueAfter fixture.tenMinutes, None) ∧
  v1alpha1.DescriptorSpec <$> client.cds (snd run) !! fixture.rootKey
  = Some (v1alpha1.mkComponentDescriptorSpec "root-spec" "v0.0.1") ∧
  client.cds (snd run) !! fixture.embeddedKey
  = Some (fixture.stale fixture.embeddedKey "stale-embedded-spec") ∧
  ¬ (v1alpha1.DescriptorSpec <$> client.cds (snd run) !! fixture.embeddedKey
     = Some (v1alpha1.mkComponentDescriptorSpec "embedded-spec" "v0.0.1")).
Proof. vm_compute. by repeat split. Qed.

(** ** Running the expansion again *)

Lemma SameStores_refl t : SameStores t t.
Proof. done. Qed.

Lemma SameStores_trans t1 t2 t3 :
  SameStores t1 t2 → SameStores t2 t3 → SameStores t1 t3.
Proof. intros [??] [??]. split; congruence. Qed.

Lemma SameStores_StoreOK t t' : SameStores t t' → StoreOK t → StoreOK t'.
Proof. intros [Hcds Hcvs] [??]. split; by rewrite ?Hcds, ?Hcvs. Qed.

Lemma Extends_Covers r parent w w' : Extends r parent w w' → Covers w w'.
Proof.
  intros [_ Hext] k Hk. destruct (Hext k) as [->|[Hnone _]]; [done|].
  rewrite Hnone in Hk. by destruct Hk.
Qed.

Lemma Covers_trans w1 w2 w3 : Covers w1 w2 → Covers w2 w3 → Covers w1 w3.
Proof. intros H12 H23 k Hk. by apply H23, H12. Qed.

Lemma Covers_same w t t' : SameStores t t' → Covers w t → Covers w t'.
Proof. intros [Hcds _] H k Hk. rewrite Hcds. by apply H. Qed.

(** The child upsert in closed form. *)
Lemma CreateOrUpdate_keep_eq c obj key w :
  metav1.ObjectKeyFromMeta (v1alpha1.DescriptorMeta obj) = key →
  StoreOK w →
  controllerutil.CreateOrUpdate c obj (λ d, Ok d) w =
  match client.Fault c client.VGet client.KComponentDescriptor key with
  | Some msg => (Err (errorsNew msg), w)
  | None =>
      match client.cds w !! key with
      | Some existing => (Ok (controllerutil.OperationResultNone, existing), w)
      | None =>
          match client.Fault c client.VCreate client.KComponentDescriptor key with
          | Some msg => (Err (errorsNew msg), w)
          | None =>
              (Ok (controllerutil.OperationResultCreated, client.stamped c obj),
               client.withCds w (<[key := client.stamped c obj]> (client.cds w)))
          end
      end
  end.
Proof.
  intros Hkey [Hok _].
  unfold controllerutil.CreateOrUpdate, client.Get, controllerutil.mutate.
  rewrite Hkey.
  destruct (client.Fault c client.VGet _ key); [done|].
  destruct (client.cds w !! key) as [existing|] eqn:E; simpl.
  - apply Hok in E as [Hk _].
    rewrite decide_False by (intros Hne; by apply Hne).
    by rewrite decide_True.
  - rewrite decide_False by (intros Hne; by apply Hne).
    unfold client.Create. rewrite Hkey, E.
    by destruct (client.Fault c client.VCreate _ key).
Qed.

Lemma referenceTo_key name version identity descriptor references ns n :
  metav1.ObjectKeyFromMeta (v1alpha1.DescriptorMeta descriptor) = (ns, n) →
  controllers.referenceTo name version identity descriptor references
  = v1alpha1.mkReference name version references identity
      (meta.mkNamespacedObjectReference n ns).
Proof. unfold controllers.referenceTo. by intros [= -> ->]. Qed.

Lemma parseReferences_body_replays recurse r parent ref :
  (∀ references, Replays (recurse references)) →
  (∀ references w1 res w2,
      recurse references w1 = (res, w2) → Extends r parent w1 w2) →
  Replays (controllers.parseReferences_body recurse r parent ref).
Proof.
  intros Hrec Hext w res w1 Hok Hrun t Hokt Hcov Hfail.
  unfold controllers.parseReferences_body, controllers.GetComponentVersion in *.
  set (w0 := client.logCall w _) in *. set (t0 := client.logCall t _) in *.
  assert (StoreOK w0) as Hok0 by done.
  assert (StoreOK t0) as Hokt0 by done.
  assert (SameStores t t0) as Hsame by done.
  assert (Covers w1 t0) as Hcov0 by done.
  assert (¬ returnedOk res → client.cds t0 = client.cds w1) as Hfail0 by done.
  assert (∀ t', SameStores t0 t' → SameStores t t') as Hback
    by (intros t'; by apply SameStores_trans).
  match goal with |- ∃ t', ?lhs = _ ∧ _ =>
    enough (∃ t', lhs = (res, t') ∧ SameStores t0 t') as (t' & ? & ?)
      by (exists t'; split; [done|by apply Hback]) end.
  clearbody w0 t0. clear Hok Hokt Hcov Hfail Hsame Hback.
  destruct (ocmclient.GetComponentVersion _ _ _ _) as [rcv|];
    [|simplify_eq; by eexists].
  destruct (compdesc.ConvertFrom _ _) as [cd|]; [|simplify_eq; by eexists].
  destruct (controllers.constructComponentName _ _ _) as [componentName|];
    [|simplify_eq; by eexists].
  destruct (controllerutil.SetOwnerReference _ _ _) as [descriptor|] eqn:Hown;
    [|simplify_eq; by eexists].
  apply SetOwnerReference_spec in Hown as (gvk & Hgvk & Hd).
  set (key := (v1alpha1.GetNamespace parent, componentName)).
  assert (metav1.ObjectKeyFromMeta (v1alpha1.DescriptorMeta descriptor) = key)
    as Hkey by (by rewrite Hd).
  destruct (controllerutil.CreateOrUpdate _ _ _ w0) as [rcu wc] eqn:Hcu.
  assert (Extends r parent w0 wc) as Hwc.
  { rewrite Hd in Hcu. by eapply CreateOrUpdate_child_extends. }
  clear Hd.
  rewrite (CreateOrUpdate_keep_eq _ _ key) in Hcu by done.
  rewrite (CreateOrUpdate_keep_eq _ _ key) by done.
  destruct (client.Fault _ client.VGet _ key);
    [simplify_eq; by eexists|].
  assert ((∃ op o, rcu = Ok (op, o) ∧
                    metav1.ObjectKeyFromMeta (v1alpha1.DescriptorMeta o) = key ∧
                    is_Some (client.cds wc !! key))
          ∨ (∃ msg, rcu = Err (errorsNew msg) ∧ wc = w0 ∧
                    client.cds w0 !! key = None ∧
                    client.Fault (controllers.Client r) client.VCreate
                      client.KComponentDescriptor key = Some msg)) as Hcases.
  { destruct (client.cds w0 !! key) as [existing|] eqn:E.
    - left. injection Hcu as <- <-. eexists _, existing.
      split; [done|]. split; [by apply Hok0 in E as [? _]|by rewrite E].
    - destruct (client.Fault _ client.VCreate _ key) as [msg|];
        injection Hcu as <- <-; [right; by exists msg|].
      left. eexists _, _. split; [done|]. split; [done|].
      simpl. by rewrite lookup_insert_eq. }
  clear Hcu.
  destruct Hcases as [(op & o & -> & Ho & Hin)|(msg & -> & -> & Hnone & Hfault)].
  - assert (Covers wc w1) as Hc1.
    { destruct (decide (0 < length _)%nat); [|simplify_eq; by intros ??].
      destruct (recurse _ wc) as [sub w1'] eqn:Hr.
      apply Hext, Extends_Covers in Hr. by destruct sub as [[?|?]|]; simplify_eq. }
    destruct (Hcov0 key (Hc1 key Hin)) as [existing' Ht]. rewrite Ht.
    assert (metav1.ObjectKeyFromMeta (v1alpha1.DescriptorMeta existing') = key)
      as Ho' by (by apply Hokt0 in Ht as [? _]).
    destruct (decide (0 < length _)%nat);
      [|simplify_eq;
        rewrite (referenceTo_key _ _ _ existing' _ _ _ Ho'),
          (referenceTo_key _ _ _ o _ _ _ Ho); by eexists].
    destruct (recurse _ wc) as [sub w1'] eqn:Hr.
    assert (w1' = w1) as -> by (by destruct sub as [[?|?]|]; simplify_eq).
    destruct (Hrec _ wc sub w1 (Extends_StoreOK _ _ _ _ Hwc Hok0) Hr t0 Hokt0 Hcov0)
      as (t' & Hrt & Hsame).
    { intros Hsub. apply Hfail0. intros [x ->]. apply Hsub.
      destruct sub as [[?|?]|]; simplify_eq. by eexists. }
    rewrite Hrt. exists t'.
    destruct sub as [[?|?]|]; simplify_eq; [|done..].
    by rewrite (referenceTo_key _ _ _ existing' _ _ _ Ho'),
      (referenceTo_key _ _ _ o _ _ _ Ho).
  - injection Hrun as <- <-.
    rewrite Hfail0, Hnone, Hfault by (by intros [x ?]). by eexists.
Qed.

Lemma parseReferences_loop_replays body r parent references :
  (∀ ref, Replays (body ref)) →
  (∀ ref w1 res w2, body ref w1 = (res, w2) → Extends r parent w1 w2) →
  ∀ acc, Replays (controllers.parseReferences_loop body references acc).
Proof.
  intros Hbody Hext.
  induction references as [|ref references IH];
    intros acc w res w1 Hok Hrun t Hokt Hcov Hfail; simpl in *.
  - injection Hrun as <- <-. by exists t.
  - destruct (body ref w) as [rb wb] eqn:Hb.
    pose proof (Hext _ _ _ _ Hb) as Hwb.
    assert (Covers wb w1) as Hc.
    { destruct rb as [[x|e]|]; [|simplify_eq; by intros ??..].
      eapply Extends_Covers, parseReferences_loop_extends; done. }
    destruct (Hbody ref w rb wb Hok Hb t Hokt) as (t1 & Hb1 & Hsame1).
    { by eapply Covers_trans. }
    { intros Hrb. destruct rb as [[x|e]|]; [by destruct Hrb; eexists| |];
        simplify_eq; apply Hfail; by intros [? ?]. }
    rewrite Hb1.
    destruct rb as [[x|e]|]; [|simplify_eq; by exists t1..].
    destruct (IH _ wb res w1 (Extends_StoreOK _ _ _ _ Hwb Hok) Hrun t1)
      as (t2 & Hl & Hsame2).
    { by eapply SameStores_StoreOK. }
    { by eapply Covers_same. }
    { intros Hres. destruct Hsame1 as [-> _]. by apply Hfail. }
    exists t2. split; [done|]. by eapply SameStores_trans.
Qed.

(** [parseReferences] replays: run again over the store it left behind, it
    returns the same tree (or the same failure) and writes nothing. *)
Lemma parseReferences_replays fuel r parent :
  ∀ references, Replays (controllers.parseReferences fuel r parent references).
Proof.
  induction fuel as [|fuel IH]; intros references.
  - intros w res w1 _ Hrun t _ _ _. simpl in *. injection Hrun as <- <-.
    by exists t.
  - simpl. apply (parseReferences_loop_replays _ r parent).
    + intros ref. apply parseReferences_body_replays; [done|].
      intros ????. apply parseReferences_extends.
    + intros ref w1 res w2. apply parseReferences_body_extends.
      intros ????. apply parseReferences_extends.
Qed.

Lemma parseReferences_loop_ext body1 body2 references acc w :
  (∀ ref w1, body1 ref w1 = body2 ref w1) →
  controllers.parseReferences_loop body1 references acc w
  = controllers.parseReferences_loop body2 references acc w.
Proof.
  intros Hbody. revert acc w.
  induction references as [|ref references IH]; intros acc w; [done|].
  simpl. rewrite Hbody. by destruct (body2 ref w) as [[[x|e]|] w1].
Qed.

(** The expansion reads the root's metadata and asks the OCM client; a root
    that differs in its status only gives the same expansion. *)
Lemma parseReferences_status_blind fuel r obj status :
  StatusBlind r →
  ∀ references w,
    controllers.parseReferences fuel r
      (v1alpha1.mkComponentVersion (v1alpha1.ObjectMeta obj) (v1alpha1.Spec obj) status)
      references w
    = controllers.parseReferences fuel r obj references w.
Proof.
  intros Hblind. destruct (Hblind obj status) as [_ Hfetch].
  induction fuel as [|fuel IH]; intros references w; [done|].
  simpl. apply parseReferences_loop_ext. intros ref w1.
  unfold controllers.parseReferences_body, controllers.GetComponentVersion.
  rewrite Hfetch.
  destruct (ocmclient.GetComponentVersion _ _ _ _) as [rcv|]; [|done].
  destruct (compdesc.ConvertFrom _ _) as [cd|]; [|done].
  destruct (controllers.constructComponentName _ _ _) as [componentName|]; [|done].
  change (controllerutil.SetOwnerReference
            (v1alpha1.mkComponentVersion (v1alpha1.ObjectMeta obj) (v1alpha1.Spec obj)
               status))
    with (controllerutil.SetOwnerReference obj).
  change (v1alpha1.GetNamespace
            (v1alpha1.mkComponentVersion (v1alpha1.ObjectMeta obj) (v1alpha1.Spec obj)
               status))
    with (v1alpha1.GetNamespace obj).
  destruct (controllerutil.SetOwnerReference _ _ _) as [descriptor|]; [|done].
  destruct (controllerutil.CreateOrUpdate _ _ _ _) as [[[op o]|e] w2]; [|done].
  case_decide; [|done]. by rewrite IH.
Qed.

(** ** Running the reconcile again *)

Lemma reconcile_status_blind fuel r obj status :
  StatusBlind r →
  v1alpha1.Verified status = v1alpha1.Verified (v1alpha1.Status obj) →
  ∀ w,
    controllers.reconcile fuel r
      (v1alpha1.mkComponentVersion (v1alpha1.ObjectMeta obj) (v1alpha1.Spec obj) status) w
    = controllers.reconcile fuel r obj w.
Proof.
  intros Hblind Hverified w. destruct (Hblind obj status) as [_ Hfetch].
  set (obj' := v1alpha1.mkComponentVersion _ _ status) in *.
  unfold controllers.reconcile, controllers.GetComponentVersion.
  change (v1alpha1.Spec obj') with (v1alpha1.Spec obj).
  change (v1alpha1.GetRequeueAfter obj') with (v1alpha1.GetRequeueAfter obj).
  change (v1alpha1.GetNamespace obj') with (v1alpha1.GetNamespace obj).
  rewrite Hfetch.
  destruct (ocmclient.GetComponentVersion _ _ _ _) as [cv|]; [|done].
  destruct (compdesc.ConvertFrom _ _) as [cd|]; [|done].
  destruct (controllers.constructComponentName _ _ _) as [componentName|]; [|done].
  change (controllers.reconcile_mutate r obj' cd)
    with (controllers.reconcile_mutate r obj cd).
  destruct (controllerutil.CreateOrUpdate _ _ _ _) as [[[op d]|e] wr]; [|done].
  destruct (negb _); [done|].
  unfold obj' at 1. rewrite (parseReferences_status_blind _ _ _ _ Hblind).
  destruct (controllers.parseReferences _ _ _ _ _) as [[[tree|e]|] wp]; [|done..].
  unfold patch.NewHelper, patch.Patch.
  destruct (apiutil.GVKForObject _ _); [|done]. simpl patch.helperClient.
  unfold v1alpha1.withStatusComponentDescriptor.
  change (v1alpha1.ObjectMeta obj') with (v1alpha1.ObjectMeta obj).
  change (v1alpha1.Spec obj') with (v1alpha1.Spec obj).
  change (v1alpha1.Status obj') with status.
  by rewrite Hverified.
Qed.

Lemma CreateOrUpdate_frame c obj f w res w' t :
  client.cds t = client.cds w →
  controllerutil.CreateOrUpdate c obj f w = (res, w') →
  controllerutil.CreateOrUpdate c obj f t = (res, client.withCds t (client.cds w')).
Proof.
  intros Hcds.
  assert (client.withCds t (client.cds w) = t) as Ht
    by (by apply World_eq; rewrite <-?Hcds).
  unfold controllerutil.CreateOrUpdate, client.Get, client.Create, client.Update.
  rewrite Hcds.
  destruct (client.Fault c client.VGet _ _);
    [intros [= <- <-]; by rewrite Ht|].
  destruct (client.cds w !! _) as [existing|] eqn:E; simpl.
  - destruct (controllerutil.mutate _ _ _) as [o|];
      [|intros [= <- <-]; by rewrite Ht].
    case_decide; [intros [= <- <-]; by rewrite Ht|].
    destruct (client.Fault c client.VUpdate _ _);
      [intros [= <- <-]; by rewrite Ht|].
    destruct (client.cds w !! metav1.ObjectKeyFromMeta (v1alpha1.DescriptorMeta o));
      simpl; intros [= <- <-]; by rewrite ?Ht.
  - destruct (controllerutil.mutate _ _ _) as [o|];
      [|intros [= <- <-]; by rewrite Ht].
    destruct (client.Fault c client.VCreate _ _);
      [intros [= <- <-]; by rewrite Ht|].
    destruct (client.cds w !! metav1.ObjectKeyFromMeta (v1alpha1.DescriptorMeta o));
      simpl; intros [= <- <-]; by rewrite ?Ht.
Qed.

Lemma CreateOrUpdate_ok_get c obj f w x w' :
  controllerutil.CreateOrUpdate c obj f w = (Ok x, w') →
  client.Fault c client.VGet client.KComponentDescriptor
    (metav1.ObjectKeyFromMeta (v1alpha1.DescriptorMeta obj)) = None.
Proof.
  unfold controllerutil.CreateOrUpdate, client.Get.
  by destruct (client.Fault c client.VGet _ _).
Qed.

(** Once the root's record holds the fetched specification, the root
    upsert finds nothing to change. *)
Lemma root_upsert_again r obj cd componentName d t :
  let key := (v1alpha1.GetNamespace obj, componentName) in
  client.Fault (controllers.Client r) client.VGet client.KComponentDescriptor key
  = None →
  client.cds t !! key = Some d →
  metav1.ObjectKeyFromMeta (v1alpha1.DescriptorMeta d) = key →
  metav1.CreationTimestamp (v1alpha1.DescriptorMeta d) ≠ None →
  v1alpha1.DescriptorSpec d
  = v1alpha1.mkComponentDescriptorSpec (compdesc.Spec cd) (compdesc.GetVersion cd) →
  controllerutil.CreateOrUpdate (controllers.Client r)
    (controllers.newDescriptor (v1alpha1.GetNamespace obj) componentName
       (v1alpha1.mkComponentDescriptorSpec "" ""))
    (controllers.reconcile_mutate r obj cd) t
  = (Ok (controllerutil.OperationResultNone, d), t).
Proof.
  intros key Hfault Hd Hkey Hts Hspec.
  unfold controllerutil.CreateOrUpdate, client.Get.
  change (metav1.ObjectKeyFromMeta
            (v1alpha1.DescriptorMeta (controllers.newDescriptor _ _ _))) with key.
  rewrite Hfault, Hd.
  unfold controllerutil.mutate, controllers.reconcile_mutate.
  destruct (metav1.CreationTimestamp _) as [z|]; [|done]. simpl metav1.IsZero.
  cbv iota. rewrite <-Hspec.
  assert (controllers.withSpec d (v1alpha1.DescriptorSpec d) = d) as ->
    by (by destruct d).
  rewrite decide_False by (intros Hne; by apply Hne). by rewrite decide_True.
Qed.

Lemma PatchStatus_StoreOK c obj w res w' :
  client.PatchStatus c obj w = (res, w') → StoreOK w → StoreOK w'.
Proof.
  unfold client.PatchStatus. intros H [Hcds Hcvs].
  destruct (client.Fault c _ _ _); [by simplify_eq|].
  destruct (client.cvs w !! _) as [stored|] eqn:E; [|by simplify_eq].
  injection H as <- <-. split; [done|]. intros k o. simpl.
  destruct (decide (k = metav1.ObjectKeyFromMeta (v1alpha1.ObjectMeta obj)))
    as [->|Hne].
  - rewrite lookup_insert_eq. intros [= <-]. by apply Hcvs in E.
  - rewrite lookup_insert_ne by done. apply Hcvs.
Qed.

Lemma root_upsert_StoreOK r obj cd componentName w op d wr :
  StoreOK w →
  controllerutil.CreateOrUpdate (controllers.Client r)
    (controllers.newDescriptor (v1alpha1.GetNamespace obj) componentName
       (v1alpha1.mkComponentDescriptorSpec "" ""))
    (controllers.reconcile_mutate r obj cd) w = (Ok (op, d), wr) →
  StoreOK wr.
Proof.
  intros Hok H. pose proof Hok as [Hcds Hcvs].
  apply root_upsert_spec in H as (Hcvs' & _ & Hwr & Hk & Hts & _); [|done].
  split; [|by rewrite Hcvs'].
  intros k d'. rewrite Hwr.
  destruct (decide (k = (v1alpha1.GetNamespace obj, componentName))) as [->|Hne].
  - rewrite lookup_insert_eq. by intros [= <-].
  - rewrite lookup_insert_ne by done. apply Hcds.
Qed.

(** The root objects after [reconcile]: untouched, or the status of the
    stored root patched to the resolved tree. *)
Lemma reconcile_cvs fuel r obj w out w1 :
  controllers.reconcile fuel r obj w = (out, w1) →
  client.cvs w1 = client.cvs w ∨
  ∃ tree stored,
    let key := metav1.ObjectKeyFromMeta (v1alpha1.ObjectMeta obj) in
    client.cvs w !! key = Some stored ∧
    client.cvs w1 =
      <[key := v1alpha1.mkComponentVersion (v1alpha1.ObjectMeta stored)
                 (v1alpha1.Spec stored)
                 (v1alpha1.mkComponentVersionStatus tree
                    (v1alpha1.Verified (v1alpha1.Status obj)))]> (client.cvs w).
Proof.
  intros H.
  unfold controllers.reconcile, controllers.GetComponentVersion in H.
  destruct (ocmclient.GetComponentVersion _ _ _ _) as [cv|]; [|left; by simplify_eq].
  destruct (compdesc.ConvertFrom _ _) as [cd|]; [|left; by simplify_eq].
  destruct (controllers.constructComponentName _ _ _) as [componentName|];
    [|left; by simplify_eq].
  destruct (controllerutil.CreateOrUpdate _ _ _ _) as [[[op d]|e] wr] eqn:Hcu;
    apply CreateOrUpdate_spec in Hcu as (Hwr & _); [|left; by simplify_eq].
  destruct (negb _); [left; by simplify_eq|].
  destruct (controllers.parseReferences _ _ _ _ _) as [pres wp] eqn:Hp.
  apply parseReferences_extends in Hp as [Hwp _].
  assert (client.cvs wp = client.cvs w) as Hcvs by (by rewrite Hwp, Hwr).
  destruct pres as [[tree|e]|]; [|left; by simplify_eq..].
  destruct (patch.NewHelper _ _) as [h|e]; [|left; by simplify_eq].
  unfold patch.Patch, client.PatchStatus in H.
  destruct (client.Fault _ _ _ _); [left; by simplify_eq|].
  change (v1alpha1.ObjectMeta (v1alpha1.withStatusComponentDescriptor obj _))
    with (v1alpha1.ObjectMeta obj) in H.
  rewrite Hcvs in H.
  destruct (client.cvs w !! _) as [stored|] eqn:E; [|left; by simplify_eq].
  right. injection H as <- <-. by eexists _, stored.
Qed.

(** [reconcile] replays: run again for the same root over the stores it
    left behind, it returns the same and writes nothing. *)
Lemma reconcile_replays fuel r obj w out w1 :
  StoreOK w →
  controllers.reconcile fuel r obj w = (out, w1) →
  ∀ t, SameStores w1 t →
    ∃ t', controllers.reconcile fuel r obj t = (out, t') ∧ SameStores t t'.
Proof.
  intros Hok H t [Hcds Hcvs].
  unfold controllers.reconcile, controllers.GetComponentVersion in *.
  set (w0 := client.logCall w _) in *. set (t0 := client.logCall t _) in *.
  assert (StoreOK w0) as Hok0 by done.
  assert (client.cds t0 = client.cds w1) as Hcds0 by done.
  assert (client.cvs t0 = client.cvs w1) as Hcvs0 by done.
  assert (∀ t', SameStores t0 t' → SameStores t t') as Hback
    by (intros t'; by apply SameStores_trans).
  match goal with |- ∃ t', ?lhs = _ ∧ _ =>
    enough (∃ t', lhs = (out, t') ∧ SameStores t0 t') as (t' & ? & ?)
      by (exists t'; split; [done|by apply Hback]) end.
  clearbody w0 t0. clear Hok Hcds Hcvs Hback.
  destruct (ocmclient.GetComponentVersion _ _ _ _) as [cv|];
    [|simplify_eq; by eexists].
  destruct (compdesc.ConvertFrom _ _) as [cd|]; [|simplify_eq; by eexists].
  destruct (controllers.constructComponentName _ _ _) as [componentName|];
    [|simplify_eq; by eexists].
  set (key := (v1alpha1.GetNamespace obj, componentName)).
  destruct (controllerutil.CreateOrUpdate _ _ _ w0) as [[[op d]|e] wr] eqn:Hcu.
  2:{ pose proof Hcu as Hw. apply CreateOrUpdate_spec in Hw as (_ & _ & ->).
      injection H as <- <-.
      rewrite (CreateOrUpdate_frame _ _ _ _ _ _ t0 Hcds0 Hcu).
      eexists. split; [done|]. by split. }
  pose proof (CreateOrUpdate_ok_get _ _ _ _ _ _ Hcu) as Hget.
  pose proof (root_upsert_StoreOK _ _ _ _ _ _ _ _ Hok0 Hcu) as Hokr.
  pose proof (root_upsert_spec _ _ _ _ _ _ _ _ Hok0 Hcu)
    as (_ & _ & Hwr & Hk & Hts & Hd).
  assert (v1alpha1.DescriptorSpec d
          = v1alpha1.mkComponentDescriptorSpec (compdesc.Spec cd)
              (compdesc.GetVersion cd)) as Hspec.
  { destruct (client.cds w0 !! _); [by subst|by destruct Hd]. }
  clear Hd Hcu.
  assert (∀ wp, Extends r obj wr wp → client.cds w1 = client.cds wp →
                controllerutil.CreateOrUpdate (controllers.Client r)
                  (controllers.newDescriptor (v1alpha1.GetNamespace obj)
                     componentName (v1alpha1.mkComponentDescriptorSpec "" ""))
                  (controllers.reconcile_mutate r obj cd) t0
                = (Ok (controllerutil.OperationResultNone, d), t0)) as Hroot.
  { intros wp [_ Hext] Hwp. apply root_upsert_again; try done.
    rewrite Hcds0, Hwp. fold key.
    destruct (Hext key) as [->|[Hnone _]];
      rewrite Hwr, lookup_insert_eq in *; done. }
  destruct (negb _).
  { injection H as <- <-. rewrite (Hroot wr); [|apply Extends_refl|done].
    by eexists. }
  destruct (controllers.parseReferences _ _ _ _ wr) as [pres wp] eqn:Hp.
  pose proof (parseReferences_extends _ _ _ _ _ _ _ Hp) as Hext.
  assert (client.cds w1 = client.cds wp) as Hwp.
  { destruct pres as [[tree|e]|]; [|by simplify_eq..].
    destruct (patch.NewHelper _ _); [|by simplify_eq].
    destruct (patch.Patch _ _ _) as [[[]|] wq] eqn:Hq;
      apply PatchStatus_cds in Hq; by simplify_eq. }
  rewrite (Hroot wp Hext Hwp). clear Hroot.
  assert (StoreOK w1) as Hok1.
  { pose proof (Extends_StoreOK _ _ _ _ Hext Hokr) as Hokp.
    destruct pres as [[tree|e]|]; [|by simplify_eq..].
    destruct (patch.NewHelper _ _); [|by simplify_eq].
    destruct (patch.Patch _ _ _) as [[[]|] wq] eqn:Hq;
      apply PatchStatus_StoreOK in Hq; by simplify_eq. }
  destruct (parseReferences_replays fuel r obj _ wr pres wp Hokr Hp t0)
    as (tp & Hrt & Hcdsp & Hcvsp).
  { by apply (SameStores_StoreOK w1). }
  { intros k. by rewrite Hcds0, Hwp. }
  { intros _. by rewrite Hcds0. }
  rewrite Hrt.
  destruct pres as [[tree|e]|]; [|simplify_eq; by eexists..].
  unfold patch.NewHelper in *.
  destruct (apiutil.GVKForObject _ _); [|simplify_eq; by eexists].
  unfold patch.Patch, client.PatchStatus in *. simpl patch.helperClient in *.
  change (v1alpha1.ObjectMeta (v1alpha1.withStatusComponentDescriptor obj _))
    with (v1alpha1.ObjectMeta obj) in *.
  set (keyo := metav1.ObjectKeyFromMeta (v1alpha1.ObjectMeta obj)) in *.
  destruct (client.Fault _ client.VPatch _ keyo); [simplify_eq; by eexists|].
  rewrite Hcvsp, Hcvs0.
  destruct (client.cvs wp !! keyo) as [stored|] eqn:E; injection H as <- <-.
  - simpl. rewrite lookup_insert_eq. simpl. eexists. split; [done|].
    split; [done|]. simpl. rewrite Hcvs0. simpl. by rewrite insert_insert_eq.
  - rewrite E. by eexists.
Qed.

(** C3.  [Reconcile] is idempotent: run a second time for the same request
    over the world the first run left behind, with the same answers from
    the OCM client, it returns what the first run returned and leaves both
    stores, the root's status included, exactly as they were. *)
Theorem Reconcile_idempotent :
  ∀ fuel r (req : ObjectKey) (w : client.World) out w1,
    StatusBlind r → StoreOK w →
    controllers.Reconcile fuel r req w = (out, w1) →
    ∃ w2,
      controllers.Reconcile fuel r req w1 = (out, w2) ∧
      client.cds w2 = client.cds w1 ∧ client.cvs w2 = client.cvs w1.
Proof.
  intros fuel r req w out w1 Hblind Hok H.
  unfold controllers.Reconcile, client.GetComponentVersion in *.
  destruct (client.Fault _ _ _ _); [simplify_eq/=; by eexists|].
  destruct (client.cvs w !! req) as [component|] eqn:Hget.
  2:{ injection H as <- <-. rewrite Hget. simpl. by eexists. }
  assert (metav1.ObjectKeyFromMeta (v1alpha1.ObjectMeta component) = req) as Hkey
    by (by apply Hok in Hget).
  unfold controllers.VerifyComponent in *.
  destruct (ocmclient.VerifyComponent _ component) as [ok err] eqn:Hverify.
  assert (∀ status,
            ocmclient.VerifyComponent (controllers.OCMClient r)
              (v1alpha1.mkComponentVersion (v1alpha1.ObjectMeta component)
                 (v1alpha1.Spec component) status) = (ok, err)) as Hverify'
    by (intros status; by destruct (Hblind component status) as [-> _]).
  destruct err as [e|].
  { injection H as <- <-. simpl. rewrite Hget, Hverify. by eexists. }
  destruct ok; simpl in H.
  2:{ injection H as <- <-. simpl. rewrite Hget, Hverify. simpl. by eexists. }
  set (w0 := client.logCall w _) in H.
  assert (StoreOK w0) as Hok0 by done.
  assert (client.cvs w0 !! req = Some component) as Hget0 by done.
  clearbody w0.
  assert (∃ status,
            client.cvs w1 !! req
            = Some (v1alpha1.mkComponentVersion (v1alpha1.ObjectMeta component)
                      (v1alpha1.Spec component) status) ∧
            v1alpha1.Verified status = v1alpha1.Verified (v1alpha1.Status component))
    as (status & Hget1 & Hverified).
  { destruct (reconcile_cvs _ _ _ _ _ _ H) as [->|(tree & stored & Hs & ->)].
    - exists (v1alpha1.Status component). by destruct component.
    - cbv zeta in Hs. rewrite Hkey in *. rewrite lookup_insert_eq.
      rewrite Hget0 in Hs. injection Hs as <-. by eexists. }
  rewrite Hget1. cbv iota beta. rewrite Hverify'. cbv iota beta. simpl negb.
  cbv iota.
  rewrite (reconcile_status_blind _ _ _ _ Hblind Hverified).
  destruct (reconcile_replays _ _ _ _ _ _ Hok0 H
              (client.logCall w1
                 (ocmclient.CallVerifyComponent
                    (metav1.ObjectKeyFromMeta
                       (v1alpha1.ObjectMeta
                          (v1alpha1.mkComponentVersion (v1alpha1.ObjectMeta component)
                             (v1alpha1.Spec component) status))))))
    as (w2 & Hrun & Hcds & Hcvs); [done|].
  exists w2. by repeat split.
Qed.

Lemma fixture_cvr_StatusBlind : StatusBlind fixture.cvr.
Proof. intros obj status. by split. Qed.

Lemma Reconcile_idempotent_witness :
  let first := controllers.Reconcile 5 fixture.cvr fixture.key fixture.world in
  ∃ w2,
    controllers.Reconcile 5 fixture.cvr fixture.key (snd first) = (fst first, w2) ∧
    client.cds w2 = client.cds (snd first) ∧
    client.cvs w2 = client.cvs (snd first).
Proof.
  exact (Reconcile_idempotent 5 fixture.cvr fixture.key fixture.world _ _
           fixture_cvr_StatusBlind fixture_world_StoreOK (surjective_pairing _)).
Defined.

(** * Further properties of the controller *)

(** ** The record key: its form, and the names it cannot tell apart *)

Lemma replaceChar_id old new s :
  old ∉ String.list_ascii_of_string s → strings.replaceChar old new s = s.
Proof.
  induction s as [|c s IH]; simpl; [done|].
  intros [Hc Hs]%not_elem_of_cons. rewrite IH by done.
  by rewrite decide_False.
Qed.

Lemma replaceChar_app old new s1 s2 :
  strings.replaceChar old new (s1 +:+ s2)
  = strings.replaceChar old new s1 +:+ strings.replaceChar old new s2.
Proof. induction s1 as [|c s1 IH]; simpl; by rewrite ?IH. Qed.

Lemma string_app_assoc (s1 s2 s3 : string) :
  (s1 +:+ s2) +:+ s3 = s1 +:+ (s2 +:+ s3).
Proof.
  induction s1 as [|c s1 IH]; [done|].
  change (String c ((s1 +:+ s2) +:+ s3) = String c (s1 +:+ (s2 +:+ s3))).
  by rewrite IH.
Qed.

Lemma constructComponentName_eq name version identity :
  controllers.constructComponentName name version identity
  = Ok (strings.ReplaceAll name "/" "-" +:+ "-" +:+ version
        +:+ "-14695981039346656037").
Proof. reflexivity. Qed.

Lemma replaceChar_chars old new s :
  String.list_ascii_of_string (strings.replaceChar old new s)
  = (λ c, if decide (c = old) then new else c) <$> String.list_ascii_of_string s.
Proof. induction s as [|c s IH]; simpl; by rewrite ?IH. Qed.

(** X1.  [constructComponentName] never returns an error.  The key is the
    name, character by character with every slash replaced by a dash and
    every other character kept, then a dash, the version, a dash and one
    fixed number. *)
Theorem constructComponentName_key_form :
  ∀ (name version : string) (identity : Identity),
    ∃ prefix,
      controllers.constructComponentName name version identity
      = Ok (prefix +:+ "-" +:+ version +:+ "-14695981039346656037") ∧
      String.list_ascii_of_string prefix
      = (λ c, if decide (c = "/"%char) then "-"%char else c)
          <$> String.list_ascii_of_string name.
Proof.
  intros name version identity. exists (strings.ReplaceAll name "/" "-").
  split; [apply constructComponentName_eq|apply replaceChar_chars].
Qed.

(** X2.  The key does not mark where the name ends and the version begins:
    a dash-separated segment can move from the end of the name to the
    front of the version without changing the key. *)
Theorem constructComponentName_boundary :
  ∀ (name segment version : string) (identity1 identity2 : Identity),
    ("/"%char) ∉ String.list_ascii_of_string segment →
    controllers.constructComponentName (name +:+ "-" +:+ segment) version identity1
    = controllers.constructComponentName name (segment +:+ "-" +:+ version) identity2.
Proof.
  intros name segment version identity1 identity2 Hseg.
  rewrite !constructComponentName_eq. unfold strings.ReplaceAll.
  rewrite !replaceChar_app, (replaceChar_id _ _ segment) by done.
  simpl (strings.replaceChar _ _ "-").
  f_equal. by rewrite !string_app_assoc.
Qed.

Lemma constructComponentName_boundary_witness :
  controllers.constructComponentName ("acme/app" +:+ "-" +:+ "rc1") "v1" ∅
  = controllers.constructComponentName "acme/app" ("rc1" +:+ "-" +:+ "v1") ∅.
Proof.
  apply constructComponentName_boundary. simpl.
  intros H. by repeat (apply elem_of_cons in H as [H|H]; [done|]);
    apply elem_of_nil in H.
Defined.

(** X3.  Component names that differ only in slashes against dashes get the
    same key, whatever their extra identities. *)
Theorem constructComponentName_slash_dash :
  ∀ (name1 name2 version : string) (identity1 identity2 : Identity),
    strings.ReplaceAll name1 "/" "-" = strings.ReplaceAll name2 "/" "-" →
    controllers.constructComponentName name1 version identity1
    = controllers.constructComponentName name2 version identity2.
Proof.
  intros name1 name2 version identity1 identity2 H.
  by rewrite !constructComponentName_eq, H.
Qed.

Lemma constructComponentName_slash_dash_witness :
  controllers.constructComponentName "acme/app" "v1" ∅
  = controllers.constructComponentName "acme-app" "v1" ∅.
Proof. apply constructComponentName_slash_dash. reflexivity. Defined.

(** ** The expansion: a proof principle for what it does to the world *)

Lemma parseReferences_loop_invariant (R : client.World → client.World → Prop)
  body references acc w res w' :
  (∀ w, R w w) → (∀ w1 w2 w3, R w1 w2 → R w2 w3 → R w1 w3) →
  (∀ ref w1 res1 w2, body ref w1 = (res1, w2) → R w1 w2) →
  controllers.parseReferences_loop body references acc w = (res, w') →
  R w w'.
Proof.
  intros Hrefl Htrans Hbody. revert acc w.
  induction references as [|ref references IH]; intros acc w H; simpl in H.
  - by simplify_eq.
  - destruct (body ref w) as [[[x|e]|] w1] eqn:Hb; apply Hbody in Hb;
      [|by simplify_eq..].
    apply IH in H. by eapply Htrans.
Qed.

(** A relation between worlds that is reflexive and transitive, and that
    the logging of a fetch and the upsert of a child record respect, holds
    between the worlds before and after [parseReferences], whatever the
    outcome. *)
Lemma parseReferences_invariant (R : client.World → client.World → Prop)
  r parent :
  (∀ w, R w w) → (∀ w1 w2 w3, R w1 w2 → R w2 w3 → R w1 w3) →
  (∀ w name version,
      R w (client.logCall w (ocmclient.CallGetComponentVersion name version))) →
  (∀ ref rcv cd componentName gvk w res w',
      ocmclient.GetComponentVersion (controllers.OCMClient r) parent
        (ocmdesc.ComponentName ref) (ocmdesc.Version ref) = Ok rcv →
      compdesc.ConvertFrom (controllers.Converter r) (ocmclient.GetDescriptor rcv)
      = Ok cd →
      controllers.constructComponentName (ocmdesc.ComponentName ref)
        (ocmdesc.Version ref) (ocmdesc.ExtraIdentity ref) = Ok componentName →
      controllers.Scheme r !! "ComponentVersion" = Some gvk →
      controllerutil.CreateOrUpdate (controllers.Client r)
        (v1alpha1.mkComponentDescriptor
           (metav1.mkObjectMeta (v1alpha1.GetNamespace parent) componentName "" None
              (controllerutil.upsertOwnerRef (controllerutil.ownerRefOf gvk parent) []))
           (v1alpha1.mkComponentDescriptorSpec (compdesc.Spec cd) (ocmdesc.Version ref)))
        (λ d, Ok d) w = (res, w') →
      R w w') →
  ∀ fuel references w res w',
    controllers.parseReferences fuel r parent references w = (res, w') → R w w'.
Proof.
  intros Hrefl Htrans Hlog Hstep fuel.
  induction fuel as [|fuel IH]; intros references w res w' H; simpl in H.
  - by simplify_eq.
  - eapply parseReferences_loop_invariant; [done..| |done].
    clear H. intros ref w1 res1 w2 H.
    unfold controllers.parseReferences_body, controllers.GetComponentVersion in H.
    match type of H with context [client.logCall w1 ?c] =>
      pose proof (Hlog w1 (ocmdesc.ComponentName ref) (ocmdesc.Version ref)) as Hw0;
      set (w0 := client.logCall w1 c) in * end.
    clearbody w0.
    destruct (ocmclient.GetComponentVersion _ _ _ _) as [rcv|] eqn:Hrcv;
      [|by simplify_eq].
    destruct (compdesc.ConvertFrom _ _) as [cd|] eqn:Hcd; [|by simplify_eq].
    destruct (controllers.constructComponentName _ _ _) as [componentName|] eqn:Hn;
      [|by simplify_eq].
    destruct (controllerutil.SetOwnerReference _ _ _) as [descriptor|] eqn:Hown;
      [|by simplify_eq].
    apply SetOwnerReference_spec in Hown as (gvk & Hgvk & ->).
    destruct (controllerutil.CreateOrUpdate _ _ _ _) as [rcu wc] eqn:Hcu.
    apply (Hstep _ _ _ _ _ _ _ _ Hrcv Hcd Hn Hgvk) in Hcu.
    assert (R w1 wc) as Hwc by (by eapply Htrans).
    destruct rcu as [[op o]|e]; [|by simplify_eq].
    case_decide; [|by simplify_eq].
    destruct (controllers.parseReferences _ _ _ _ wc) as [[[out|e]|] w3] eqn:Hr;
      apply IH in Hr; simplify_eq; by eapply Htrans.
Qed.

(** ** The expansion: the records it writes *)

Lemma Declared_sub r parent references ref rcv x :
  Declared r parent references ref →
  ocmclient.GetComponentVersion (controllers.OCMClient r) parent
    (ocmdesc.ComponentName ref) (ocmdesc.Version ref) = Ok rcv →
  Declared r parent (ocmdesc.References (ocmclient.GetDescriptor rcv)) x →
  Declared r parent references x.
Proof.
  intros Href Hrcv Hx. induction Hx as [x Hin|x rcv' x' _ IH Hrcv' Hin].
  - by eapply Declared_below.
  - by eapply Declared_below.
Qed.

Lemma ChildRecordOf_mono r parent references1 references2 trace1 trace2 k d :
  (∀ x, Declared r parent references1 x → Declared r parent references2 x) →
  (∀ c, c ∈ trace1 → c ∈ trace2) →
  ChildRecordOf r parent references1 trace1 k d →
  ChildRecordOf r parent references2 trace2 k d.
Proof.
  intros Hdecl Htrace (ref & rcv & cd & componentName & Href & Hcall & H).
  exists ref, rcv, cd, componentName. by auto.
Qed.

Lemma Writes_refl r parent references w : Writes r parent references w w.
Proof. exists []. rewrite app_nil_r. by auto. Qed.

Lemma Writes_trans r parent references w1 w2 w3 :
  Writes r parent references w1 w2 → Writes r parent references w2 w3 →
  Writes r parent references w1 w3.
Proof.
  intros (t12 & Hcalls12 & Hcvs12 & Hup12 & Hnew12)
         (t23 & Hcalls23 & Hcvs23 & Hup23 & Hnew23).
  exists (t12 ++ t23). split; [by rewrite Hcalls23, Hcalls12, app_assoc|].
  split; [congruence|]. split; [by auto|].
  intros k d Hd. destruct (Hnew23 k d Hd) as [Hd2|[Hnone Hchild]].
  - destruct (Hnew12 k d Hd2) as [?|[? Hchild]]; [by left|right].
    split; [done|]. eapply ChildRecordOf_mono; [done| |done].
    intros c Hc. apply elem_of_app. by left.
  - right. split.
    + destruct (client.cds w1 !! k) as [d1|] eqn:E; [|done].
      apply Hup12 in E. congruence.
    + eapply ChildRecordOf_mono; [done| |done].
      intros c Hc. apply elem_of_app. by right.
Qed.

Lemma Writes_mono r parent references1 references2 w w' :
  (∀ x, Declared r parent references1 x → Declared r parent references2 x) →
  Writes r parent references1 w w' → Writes r parent references2 w w'.
Proof.
  intros Hdecl (trace & Hcalls & Hcvs & Hup & Hnew). exists trace.
  do 3 (split; [done|]). intros k d Hd.
  destruct (Hnew k d Hd) as [?|[? Hchild]]; [by left|right].
  split; [done|]. by eapply ChildRecordOf_mono.
Qed.

Lemma parseReferences_body_writes recurse r parent references ref w res w' :
  ref ∈ references →
  (∀ sub w1 res1 w2,
      recurse sub w1 = (res1, w2) → Writes r parent sub w1 w2) →
  controllers.parseReferences_body recurse r parent ref w = (res, w') →
  Writes r parent references w w'.
Proof.
  intros Hin Hrec H.
  unfold controllers.parseReferences_body, controllers.GetComponentVersion in H.
  set (call := ocmclient.CallGetComponentVersion (ocmdesc.ComponentName ref)
                 (ocmdesc.Version ref)) in *.
  set (w0 := client.logCall w call) in H.
  assert (client.calls w0 = client.calls w ++ [call]) as Hcalls0 by done.
  assert (client.cvs w0 = client.cvs w) as Hcvs0 by done.
  assert (client.cds w0 = client.cds w) as Hcds0 by done.
  assert (Writes r parent references w w0) as Hw0.
  { exists [call]. rewrite Hcds0. by auto. }
  clearbody w0.
  destruct (ocmclient.GetComponentVersion _ _ _ _) as [rcv|] eqn:Hrcv;
    [|by simplify_eq].
  destruct (compdesc.ConvertFrom _ _) as [cd|] eqn:Hcd; [|by simplify_eq].
  destruct (controllers.constructComponentName _ _ _) as [componentName|] eqn:Hn;
    [|by simplify_eq].
  destruct (controllerutil.SetOwnerReference _ _ _) as [descriptor|] eqn:Hown;
    [|by simplify_eq].
  apply SetOwnerReference_spec in Hown as (gvk & Hgvk & ->).
  destruct (controllerutil.CreateOrUpdate _ _ _ _) as [rcu wc] eqn:Hcu.
  assert (Writes r parent references w wc) as Hwc.
  { apply CreateOrUpdate_keep in Hcu. cbv zeta in Hcu.
    change (metav1.ObjectKeyFromMeta _)
      with (v1alpha1.GetNamespace parent, componentName) in Hcu.
    destruct rcu as [[op o]|e]; [|by subst].
    destruct (client.cds w0 !! _) as [existing|] eqn:E.
    - by destruct Hcu as [-> _].
    - destruct Hcu as (-> & Hcvs & Hcalls & Hcds). exists [call].
      split; [congruence|]. split; [congruence|].
      rewrite Hcds, Hcds0 in *. split.
      + intros k d Hd. rewrite lookup_insert_ne; [done|]. congruence.
      + intros k d.
        destruct (decide (k = (v1alpha1.GetNamespace parent, componentName)))
          as [->|Hne]; [|rewrite lookup_insert_ne by done; by auto].
        rewrite lookup_insert_eq. intros [= <-]. right. split; [done|].
        exists ref, rcv, cd, componentName.
        split; [by constructor|]. split; [by apply list_elem_of_singleton|].
        done. }
  destruct rcu as [[op o]|e]; [|by simplify_eq].
  case_decide; [|by simplify_eq].
  destruct (recurse _ wc) as [out w3] eqn:Hr.
  apply Hrec in Hr.
  apply (Writes_mono _ _ _ references) in Hr.
  - pose proof (Writes_trans _ _ _ _ _ _ Hwc Hr) as Hw3.
    destruct out as [[out|e]|]; by simplify_eq.
  - intros x. by apply (Declared_sub _ _ _ ref); [constructor|].
Qed.

Lemma parseReferences_loop_writes body r parent references rest acc w res w' :
  (∀ ref w1 res1 w2,
      ref ∈ rest → body ref w1 = (res1, w2) → Writes r parent references w1 w2) →
  controllers.parseReferences_loop body rest acc w = (res, w') →
  Writes r parent references w w'.
Proof.
  revert acc w.
  induction rest as [|ref rest IH]; intros acc w Hbody H; simpl in H.
  - simplify_eq. apply Writes_refl.
  - destruct (body ref w) as [[[x|e]|] w1] eqn:Hb;
      apply Hbody in Hb; try (by left); [|by simplify_eq..].
    apply IH in H; [by eapply Writes_trans|].
    intros ref' w2 res2 w3 Hin. apply Hbody. by right.
Qed.

Lemma parseReferences_Writes fuel r parent :
  ∀ references w res w',
    controllers.parseReferences fuel r parent references w = (res, w') →
    Writes r parent references w w'.
Proof.
  induction fuel as [|fuel IH]; intros references w res w' H; simpl in H.
  - simplify_eq. apply Writes_refl.
  - eapply parseReferences_loop_writes; [|done].
    intros ref w1 res1 w2 Hin. by apply parseReferences_body_writes.
Qed.

(** X4.  Whatever its outcome, [parseReferences] leaves the root objects
    alone and keeps every stored descriptor as it is.  A descriptor it adds
    sits in the root's namespace under the key computed for one of the
    references it fetched (a reference declared below those it was given,
    whose fetch is among the calls it made), and holds the converted
    specification of the component fetched for that reference, with the
    version the reference declares. *)
Theorem parseReferences_writes :
  ∀ fuel r parent references (w : client.World) res w',
    controllers.parseReferences fuel r parent references w = (res, w') →
    ∃ trace,
      client.calls w' = client.calls w ++ trace ∧
      client.cvs w' = client.cvs w ∧
      (∀ k d, client.cds w !! k = Some d → client.cds w' !! k = Some d) ∧
      (∀ k d, client.cds w' !! k = Some d →
              client.cds w !! k = Some d ∨
              (client.cds w !! k = None ∧
               ChildRecordOf r parent references trace k d)).
Proof. intros fuel r parent. apply parseReferences_Writes. Qed.

Lemma parseReferences_writes_witness :
  ∃ trace,
    client.calls (snd (controllers.parseReferences 5 fixture.familyReconciler
                         fixture.obj fixture.declaredABC fixture.world))
    = client.calls fixture.world ++ trace ∧
    client.cvs (snd (controllers.parseReferences 5 fixture.familyReconciler
                       fixture.obj fixture.declaredABC fixture.world))
    = client.cvs fixture.world ∧
    (∀ k d,
        client.cds fixture.world !! k = Some d →
        client.cds (snd (controllers.parseReferences 5 fixture.familyReconciler
                           fixture.obj fixture.declaredABC fixture.world)) !! k
        = Some d) ∧
    (∀ k d,
        client.cds (snd (controllers.parseReferences 5 fixture.familyReconciler
                           fixture.obj fixture.declaredABC fixture.world)) !! k
        = Some d →
        client.cds fixture.world !! k = Some d ∨
        (client.cds fixture.world !! k = None ∧
         ChildRecordOf fixture.familyReconciler fixture.obj fixture.declaredABC
           trace k d)).
Proof.
  exact (parseReferences_writes 5 fixture.familyReconciler fixture.obj
           fixture.declaredABC fixture.world _ _ (surjective_pairing _)).
Defined.

(** ** The expansion: the pointers of the tree it returns *)

Lemma child_upsert_ok c descriptor key w op o wc :
  metav1.ObjectKeyFromMeta (v1alpha1.DescriptorMeta descriptor) = key →
  StoreOK w →
  controllerutil.CreateOrUpdate c descriptor (λ d, Ok d) w = (Ok (op, o), wc) →
  metav1.ObjectKeyFromMeta (v1alpha1.DescriptorMeta o) = key ∧
  is_Some (client.cds wc !! key).
Proof.
  intros Hkey Hok H. rewrite (CreateOrUpdate_keep_eq _ _ key) in H by done.
  destruct Hok as [Hok _].
  destruct (client.Fault c client.VGet _ key); [done|].
  destruct (client.cds w !! key) as [existing|] eqn:E.
  - injection H as <- <- <-. split; [by apply Hok in E as [? _]|by rewrite E].
  - destruct (client.Fault c client.VCreate _ key); [done|].
    injection H as <- <- <-. split; [done|]. simpl. by rewrite lookup_insert_eq.
Qed.

Lemma Resolves_Extends r parent w w' p :
  Extends r parent w w' → Resolves w p → Resolves w' p.
Proof. intros Hext. by apply (Extends_Covers _ _ _ _ Hext). Qed.

Lemma parseReferences_body_pointers recurse r parent ref w x w' :
  StoreOK w →
  (∀ references w1 res w2,
      recurse references w1 = (res, w2) → Extends r parent w1 w2) →
  (∀ references w1 out w2,
      StoreOK w1 → recurse references w1 = (Some (Ok out), w2) →
      ∀ p, p ∈ flat_map pointers out →
        meta.Namespace p = v1alpha1.GetNamespace parent ∧ Resolves w2 p) →
  controllers.parseReferences_body recurse r parent ref w = (Some (Ok x), w') →
  ∀ p, p ∈ pointers x →
    meta.Namespace p = v1alpha1.GetNamespace parent ∧ Resolves w' p.
Proof.
  intros Hok Hext Hrec H.
  unfold controllers.parseReferences_body, controllers.GetComponentVersion in H.
  set (w0 := client.logCall w _) in H.
  assert (StoreOK w0) as Hok0 by done. clearbody w0.
  destruct (ocmclient.GetComponentVersion _ _ _ _) as [rcv|]; [|done].
  destruct (compdesc.ConvertFrom _ _) as [cd|]; [|done].
  destruct (controllers.constructComponentName _ _ _) as [componentName|]; [|done].
  destruct (controllerutil.SetOwnerReference _ _ _) as [descriptor|] eqn:Hown;
    [|done].
  apply SetOwnerReference_spec in Hown as (gvk & Hgvk & Hd).
  set (key := (v1alpha1.GetNamespace parent, componentName)).
  assert (metav1.ObjectKeyFromMeta (v1alpha1.DescriptorMeta descriptor) = key)
    as Hkey by (by rewrite Hd).
  destruct (controllerutil.CreateOrUpdate _ _ _ w0) as [[[op o]|e] wc] eqn:Hcu;
    [|done].
  assert (Extends r parent w0 wc) as Hwc.
  { rewrite Hd in Hcu. by eapply CreateOrUpdate_child_extends. }
  apply (child_upsert_ok _ _ key) in Hcu as [Ho Hin]; [|done..].
  assert (∀ out, pointers (controllers.referenceTo (ocmdesc.Name ref)
                             (ocmdesc.Version ref) (ocmdesc.ExtraIdentity ref) o out)
                 = meta.mkNamespacedObjectReference componentName
                     (v1alpha1.GetNamespace parent) :: flat_map pointers out)
    as Hpointers.
  { intros out. rewrite (referenceTo_key _ _ _ _ _ _ _ Ho). done. }
  case_decide.
  - destruct (recurse _ wc) as [[[out|e]|] w2] eqn:Hr; [|done..].
    injection H as <- <-. rewrite Hpointers.
    intros p [->|Hp]%elem_of_cons.
    + split; [done|]. by eapply Resolves_Extends; [eapply Hext|].
    + eapply Hrec; [|done..]. by eapply Extends_StoreOK.
  - injection H as <- <-. rewrite Hpointers. simpl.
    intros p [->|Hp]%elem_of_cons; [done|]. by apply elem_of_nil in Hp.
Qed.

Lemma parseReferences_loop_pointers body r parent references acc w out w' :
  (∀ ref w1 x w2,
      StoreOK w1 → body ref w1 = (Some (Ok x), w2) →
      ∀ p, p ∈ pointers x →
        meta.Namespace p = v1alpha1.GetNamespace parent ∧ Resolves w2 p) →
  (∀ ref w1 res w2, body ref w1 = (res, w2) → Extends r parent w1 w2) →
  StoreOK w →
  (∀ p, p ∈ flat_map pointers acc →
        meta.Namespace p = v1alpha1.GetNamespace parent ∧ Resolves w p) →
  controllers.parseReferences_loop body references acc w = (Some (Ok out), w') →
  ∀ p, p ∈ flat_map pointers out →
    meta.Namespace p = v1alpha1.GetNamespace parent ∧ Resolves w' p.
Proof.
  intros Hbody Hext. revert acc w.
  induction references as [|ref references IH]; intros acc w Hok Hacc H;
    simpl in H.
  - by injection H as <- <-.
  - destruct (body ref w) as [[[x|e]|] w1] eqn:Hb; [|done..].
    pose proof (Hext _ _ _ _ Hb) as Hw1.
    eapply IH; [by eapply Extends_StoreOK| |done].
    intros p. rewrite flat_map_app, elem_of_app. simpl. rewrite app_nil_r.
    intros [Hp|Hp].
    + destruct (Hacc p Hp). split; [done|]. by eapply Resolves_Extends.
    + by eapply Hbody.
Qed.

Lemma parseReferences_pointers fuel r parent :
  ∀ references (w : client.World) out w',
    StoreOK w →
    controllers.parseReferences fuel r parent references w = (Some (Ok out), w') →
    ∀ p, p ∈ flat_map pointers out →
      meta.Namespace p = v1alpha1.GetNamespace parent ∧ Resolves w' p.
Proof.
  induction fuel as [|fuel IH]; intros references w out w' Hok H; [done|].
  simpl in H.
  eapply (parseReferences_loop_pointers _ r parent); [| |done| |done].
  - intros ref w1 x w2 Hok1. apply parseReferences_body_pointers; [done| |].
    + intros ????. apply parseReferences_extends.
    + intros ???? Hok2. by apply IH.
  - intros ref w1 res w2. apply parseReferences_body_extends.
    intros ????. apply parseReferences_extends.
  - intros p Hp. by apply elem_of_nil in Hp.
Qed.

(** X5.  Every pointer of the tree [parseReferences] returns, at every
    depth, names a record that is in the descriptor store when the call
    returns, in the namespace of the root. *)
Theorem parseReferences_pointers_resolve :
  ∀ fuel r parent references (w : client.World) out w',
    StoreOK w →
    controllers.parseReferences fuel r parent references w = (Some (Ok out), w') →
    ∀ p, p ∈ flat_map pointers out →
      meta.Namespace p = v1alpha1.GetNamespace parent ∧ Resolves w' p.
Proof. intros fuel r parent. apply parseReferences_pointers. Qed.

Lemma parseReferences_pointers_resolve_witness :
  Forall
    (λ p, meta.Namespace p = "default" ∧
          Resolves (snd (controllers.parseReferences 5 fixture.familyReconciler
                           fixture.obj fixture.declaredABC fixture.world)) p)
    (flat_map pointers fixture.familyTree).
Proof.
  apply Forall_forall.
  apply (parseReferences_pointers_resolve 5 fixture.familyReconciler fixture.obj
           fixture.declaredABC fixture.world fixture.familyTree _
           fixture_world_StoreOK).
  by vm_compute.
Defined.

(** ** The reconcile: when the status is written, and what is written *)

Lemma parseReferences_mirrors fuel r parent :
  ∀ references (w : client.World) out w',
    controllers.parseReferences fuel r parent references w = (Some (Ok out), w') →
    MirrorsDeclaration r parent references out.
Proof.
  induction fuel as [|fuel IH]; intros references w out w' H; [done|].
  simpl in H.
  apply (parseReferences_loop_ok
           (λ ref x, MirrorsDeclaration r parent [ref] [x])) in H
    as (tail & -> & Htail).
  - simpl. induction Htail as [|ref x references tail Hx _ IHtail];
      [constructor|].
    inversion Hx; subst. by econstructor.
  - intros ref w1 x w2 Hb.
    apply parseReferences_body_ok in Hb
      as (rcv & Hrcv & Hn & Hv & Hi & [[Hr Hx]|[_ (w3 & w4 & Hrec)]]).
    + econstructor; try done; [|constructor]. rewrite Hr, Hx. constructor.
    + econstructor; try done; [|constructor]. by eapply IH.
Qed.

Lemma reconcile_failure_cvs fuel r obj w out w' :
  controllers.reconcile fuel r obj w = (out, w') →
  (∀ res, out ≠ Some (res, None)) →
  client.cvs w' = client.cvs w.
Proof.
  intros H Hfail.
  unfold controllers.reconcile, controllers.GetComponentVersion in H.
  destruct (ocmclient.GetComponentVersion _ _ _ _) as [cv|]; [|by simplify_eq].
  destruct (compdesc.ConvertFrom _ _) as [cd|]; [|by simplify_eq].
  destruct (controllers.constructComponentName _ _ _) as [componentName|];
    [|by simplify_eq].
  destruct (controllerutil.CreateOrUpdate _ _ _ _) as [[[op d]|e] wr] eqn:Hcu;
    apply CreateOrUpdate_spec in Hcu as (Hwr & _); [|by simplify_eq].
  destruct (negb _); [by simplify_eq|].
  destruct (controllers.parseReferences _ _ _ _ _) as [pres wp] eqn:Hp.
  apply parseReferences_extends in Hp as [Hwp _].
  destruct pres as [[tree|e]|]; [|simplify_eq; by rewrite Hwp, Hwr..].
  destruct (patch.NewHelper _ _) as [h|e]; [|simplify_eq; by rewrite Hwp, Hwr].
  unfold patch.Patch, client.PatchStatus in H.
  destruct (client.Fault _ _ _ _); [simplify_eq; by rewrite Hwp, Hwr|].
  destruct (client.cvs wp !! _); [|simplify_eq; by rewrite Hwp, Hwr].
  injection H as <- <-. by destruct (Hfail (ctrl.requeueAfter (v1alpha1.GetRequeueAfter obj))).
Qed.

(** X7.  A [Reconcile] that does not end in success (it returns an error,
    or the expansion does not return) leaves every root object, status
    included, as it was: no partial tree is committed. *)
Theorem Reconcile_failure_commits_nothing :
  ∀ fuel r (req : ObjectKey) (w : client.World) out w',
    controllers.Reconcile fuel r req w = (out, w') →
    (∀ res, out ≠ Some (res, None)) →
    client.cvs w' = client.cvs w.
Proof.
  intros fuel r req w out w' H Hfail.
  unfold controllers.Reconcile, controllers.VerifyComponent in H.
  destruct (client.GetComponentVersion _ _ _) as [component|e].
  - destruct (ocmclient.VerifyComponent _ _) as [ok [e|]]; [by simplify_eq|].
    destruct ok; simpl in H; [|by simplify_eq].
    by apply reconcile_failure_cvs in H.
  - destruct (IsNotFound e); by simplify_eq.
Qed.

Lemma Reconcile_failure_commits_nothing_witness :
  client.cvs (snd (controllers.Reconcile 5 fixture.loopReconciler fixture.key
                     fixture.world))
  = client.cvs fixture.world.
Proof.
  apply (Reconcile_failure_commits_nothing 5 fixture.loopReconciler fixture.key
           fixture.world
           (fst (controllers.Reconcile 5 fixture.loopReconciler fixture.key
                   fixture.world)) _ (surjective_pairing _)).
  intros res. by vm_compute.
Defined.

(** X8.  A [reconcile] that succeeds with the expand flag on has written
    the stored root's status, and only that: the status now holds a
    reference named after the converted root descriptor, pointing at the
    root's record (which carries the converted specification), whose tree
    mirrors the declared references; every pointer of it names a stored
    record. *)
Theorem reconcile_commits_tree :
  ∀ fuel r obj (w : client.World) res w',
    StoreOK w →
    client.cvs w !! metav1.ObjectKeyFromMeta (v1alpha1.ObjectMeta obj) = Some obj →
    v1alpha1.Expand (v1alpha1.SpecReferences (v1alpha1.Spec obj)) = true →
    controllers.reconcile fuel r obj w = (Some (res, None), w') →
    ∃ cv cd componentName tree d,
      ocmclient.GetComponentVersion (controllers.OCMClient r) obj
        (v1alpha1.Component (v1alpha1.Spec obj))
        (v1alpha1.SpecVersion (v1alpha1.Spec obj)) = Ok cv ∧
      compdesc.ConvertFrom (controllers.Converter r) (ocmclient.GetDescriptor cv)
      = Ok cd ∧
      controllers.constructComponentName (compdesc.GetName cd)
        (compdesc.GetVersion cd) ∅ = Ok componentName ∧
      MirrorsDeclaration r obj (ocmdesc.References (ocmclient.GetDescriptor cv)) tree ∧
      client.cds w' !! (v1alpha1.GetNamespace obj, componentName) = Some d ∧
      v1alpha1.DescriptorSpec d
      = v1alpha1.mkComponentDescriptorSpec (compdesc.Spec cd) (compdesc.GetVersion cd) ∧
      let status :=
        v1alpha1.mkReference (compdesc.GetName cd) (compdesc.GetVersion cd) tree ∅
          (meta.mkNamespacedObjectReference componentName (v1alpha1.GetNamespace obj)) in
      client.cvs w' =
        <[metav1.ObjectKeyFromMeta (v1alpha1.ObjectMeta obj) :=
            v1alpha1.withStatusComponentDescriptor obj status]> (client.cvs w) ∧
      ∀ p, p ∈ pointers status → Resolves w' p.
Proof.
  intros fuel r obj w res w' Hok Hobj Hexpand H.
  unfold controllers.reconcile, controllers.GetComponentVersion in H.
  set (w0 := client.logCall w _) in H.
  assert (StoreOK w0) as Hok0 by done.
  assert (client.cvs w0 = client.cvs w) as Hcvs0 by done.
  clearbody w0.
  destruct (ocmclient.GetComponentVersion _ _ _ _) as [cv|] eqn:Hcv; [|done].
  destruct (compdesc.ConvertFrom _ _) as [cd|] eqn:Hcd; [|done].
  destruct (controllers.constructComponentName _ _ _) as [componentName|] eqn:Hn;
    [|done].
  destruct (controllerutil.CreateOrUpdate _ _ _ _) as [[[op d]|e] wr] eqn:Hcu;
    [|done].
  pose proof (root_upsert_StoreOK _ _ _ _ _ _ _ _ Hok0 Hcu) as Hokr.
  pose proof (root_upsert_spec _ _ _ _ _ _ _ _ Hok0 Hcu)
    as (Hcvsr & _ & Hwr & Hk & _ & Hd).
  assert (v1alpha1.DescriptorSpec d
          = v1alpha1.mkComponentDescriptorSpec (compdesc.Spec cd)
              (compdesc.GetVersion cd)) as Hspec.
  { destruct (client.cds w0 !! _); [by subst|by destruct Hd]. }
  clear Hd Hcu. rewrite Hexpand in H. simpl negb in H. cbv iota in H.
  destruct (controllers.parseReferences _ _ _ _ wr) as [[[tree|e]|] wp] eqn:Hp;
    [|done..].
  pose proof (parseReferences_extends _ _ _ _ _ _ _ Hp) as Hext.
  destruct (patch.NewHelper _ _) as [h|e]; [|done].
  unfold patch.Patch, client.PatchStatus in H.
  destruct (client.Fault _ _ _ _); [done|].
  change (v1alpha1.ObjectMeta (v1alpha1.withStatusComponentDescriptor obj _))
    with (v1alpha1.ObjectMeta obj) in H.
  destruct Hext as [Hcvsp Hextp].
  rewrite Hcvsp, Hcvsr, Hcvs0, Hobj in H. injection H as <- <-.
  assert (client.cds wp !! (v1alpha1.GetNamespace obj, componentName) = Some d)
    as Hroot.
  { destruct (Hextp (v1alpha1.GetNamespace obj, componentName)) as [->|[Hnone _]];
      rewrite Hwr, lookup_insert_eq in *; done. }
  exists cv, cd, componentName, tree, d.
  do 3 (split; [done|]). split; [by eapply parseReferences_mirrors|].
  split; [done|]. split; [done|]. cbv zeta. split.
  - simpl. by rewrite (referenceTo_key _ _ _ _ _ _ _ Hk).
  - intros p [->|Hin]%elem_of_cons; [by eexists|].
    by destruct (parseReferences_pointers _ _ _ _ _ _ _ Hokr Hp p Hin) as [_ Hres].
Qed.

Lemma reconcile_commits_tree_witness :
  ∃ cv cd componentName tree d,
    ocmclient.GetComponentVersion (controllers.OCMClient fixture.cvr) fixture.obj
      "github.com/skarlso/root" "v0.0.1" = Ok cv ∧
    compdesc.ConvertFrom (controllers.Converter fixture.cvr)
      (ocmclient.GetDescriptor cv) = Ok cd ∧
    controllers.constructComponentName (compdesc.GetName cd)
      (compdesc.GetVersion cd) ∅ = Ok componentName ∧
    MirrorsDeclaration fixture.cvr fixture.obj
      (ocmdesc.References (ocmclient.GetDescriptor cv)) tree ∧
    client.cds (snd (controllers.reconcile 5 fixture.cvr fixture.obj fixture.world))
      !! ("default", componentName) = Some d ∧
    v1alpha1.DescriptorSpec d
    = v1alpha1.mkComponentDescriptorSpec (compdesc.Spec cd) (compdesc.GetVersion cd) ∧
    let status :=
      v1alpha1.mkReference (compdesc.GetName cd) (compdesc.GetVersion cd) tree ∅
        (meta.mkNamespacedObjectReference componentName "default") in
    client.cvs (snd (controllers.reconcile 5 fixture.cvr fixture.obj fixture.world))
    = <[fixture.key := v1alpha1.withStatusComponentDescriptor fixture.obj status]>
        (client.cvs fixture.world) ∧
    ∀ p, p ∈ pointers status →
      Resolves (snd (controllers.reconcile 5 fixture.cvr fixture.obj fixture.world)) p.
Proof.
  apply (reconcile_commits_tree 5 fixture.cvr fixture.obj fixture.world
           (ctrl.requeueAfter fixture.tenMinutes) _ fixture_world_StoreOK).
  - by vm_compute.
  - reflexivity.
  - by vm_compute.
Defined.

(** X6.  [Reconcile] adds and removes no root object, and of a stored root
    it changes nothing but the reference tree of the status: metadata, spec
    and the [Verified] flag stay, and roots other than the one requested are
    untouched. *)
Theorem Reconcile_roots_preserved :
  ∀ fuel r (req : ObjectKey) (w : client.World) out w',
    StoreOK w →
    controllers.Reconcile fuel r req w = (out, w') →
    ∀ k,
      match client.cvs w' !! k with
      | Some o' =>
          ∃ o, client.cvs w !! k = Some o ∧
               v1alpha1.ObjectMeta o' = v1alpha1.ObjectMeta o ∧
               v1alpha1.Spec o' = v1alpha1.Spec o ∧
               v1alpha1.Verified (v1alpha1.Status o')
               = v1alpha1.Verified (v1alpha1.Status o) ∧
               (k ≠ req → o' = o)
      | None => client.cvs w !! k = None
      end.
Proof.
  intros fuel r req w out w' Hok H k.
  assert (client.cvs w' = client.cvs w →
          match client.cvs w' !! k with
          | Some o' =>
              ∃ o, client.cvs w !! k = Some o ∧
                   v1alpha1.ObjectMeta o' = v1alpha1.ObjectMeta o ∧
                   v1alpha1.Spec o' = v1alpha1.Spec o ∧
                   v1alpha1.Verified (v1alpha1.Status o')
                   = v1alpha1.Verified (v1alpha1.Status o) ∧
                   (k ≠ req → o' = o)
          | None => client.cvs w !! k = None
          end) as Hsame.
  { intros ->. destruct (client.cvs w !! k) as [o|]; [|done]. by exists o. }
  unfold controllers.Reconcile, client.GetComponentVersion,
    controllers.VerifyComponent in H.
  destruct (client.Fault _ _ _ _); [apply Hsame; by simplify_eq/=|].
  destruct (client.cvs w !! req) as [component|] eqn:Hget;
    [|apply Hsame; by simplify_eq/=].
  assert (metav1.ObjectKeyFromMeta (v1alpha1.ObjectMeta component) = req) as Hkey
    by (by apply Hok in Hget).
  destruct (ocmclient.VerifyComponent _ _) as [ok [e|]];
    [apply Hsame; by simplify_eq/=|].
  destruct ok; simpl in H; [|apply Hsame; by simplify_eq/=].
  apply reconcile_cvs in H as [H|(tree & stored & Hs & H)]; [by apply Hsame|].
  cbv zeta in Hs. rewrite Hkey in *. simpl in Hs, H.
  rewrite Hget in Hs. injection Hs as <-. rewrite H.
  destruct (decide (k = req)) as [->|Hne].
  - rewrite lookup_insert_eq. exists component. by repeat split.
  - rewrite lookup_insert_ne by done.
    destruct (client.cvs w !! k) as [o|]; [|done]. by exists o.
Qed.

Lemma Reconcile_roots_preserved_witness :
  ∃ o, client.cvs fixture.world !! fixture.key = Some o ∧
       v1alpha1.ObjectMeta
         (default fixture.obj
            (client.cvs (snd (controllers.Reconcile 5 fixture.cvr fixture.key
                                fixture.world)) !! fixture.key))
       = v1alpha1.ObjectMeta o.
Proof.
  pose proof (Reconcile_roots_preserved 5 fixture.cvr fixture.key fixture.world _ _
                fixture_world_StoreOK (surjective_pairing _) fixture.key) as H.
  destruct (client.cvs _ !! fixture.key) as [o'|] eqn:E in H.
  - destruct H as (o & Ho & Hmeta & _). exists o. split; [done|].
    by rewrite E.
  - by vm_compute in H.
Defined.

(** ** The reconcile: when it asks to be run again *)



(** ** The calls on the OCM client *)

Lemma PatchStatus_calls c obj w res w' :
  client.PatchStatus c obj w = (res, w') → client.calls w' = client.calls w.
Proof.
  unfold client.PatchStatus. intros H.
  destruct (client.Fault c _ _ _); [by simplify_eq|].
  destruct (client.cvs w !! _); by simplify_eq.
Qed.

Lemma parseReferences_calls fuel r parent references w res w' :
  controllers.parseReferences fuel r parent references w = (res, w') →
  ∃ rest, client.calls w' = client.calls w ++ rest ∧ Forall isFetch rest.
Proof.
  apply (parseReferences_invariant
           (λ w w', ∃ rest, client.calls w' = client.calls w ++ rest ∧
                            Forall isFetch rest)).
  - intros w0. exists []. by rewrite app_nil_r.
  - intros w1 w2 w3 (rest1 & H1 & Hf1) (rest2 & H2 & Hf2).
    exists (rest1 ++ rest2). rewrite H2, H1, app_assoc. split; [done|].
    by apply Forall_app.
  - intros w0 name version. eexists. split; [done|]. by repeat constructor.
  - intros ref rcv cd componentName gvk w0 rcu w1 _ _ _ _ Hcu.
    apply CreateOrUpdate_spec in Hcu as (_ & -> & _). exists [].
    by rewrite app_nil_r.
Qed.

Lemma reconcile_calls fuel r obj w out w' :
  controllers.reconcile fuel r obj w = (out, w') →
  ∃ rest,
    client.calls w' =
      client.calls w ++
        ocmclient.CallGetComponentVersion (v1alpha1.Component (v1alpha1.Spec obj))
          (v1alpha1.SpecVersion (v1alpha1.Spec obj)) :: rest ∧
    Forall isFetch rest.
Proof.
  intros H.
  unfold controllers.reconcile, controllers.GetComponentVersion in H.
  set (w0 := client.logCall w _) in H.
  assert (∀ w1 rest, client.calls w1 = client.calls w0 ++ rest → Forall isFetch rest →
            ∃ rest,
              client.calls w1 =
                client.calls w ++
                  ocmclient.CallGetComponentVersion
                    (v1alpha1.Component (v1alpha1.Spec obj))
                    (v1alpha1.SpecVersion (v1alpha1.Spec obj)) :: rest ∧
              Forall isFetch rest) as Hgo.
  { intros w1 rest -> Hrest. exists rest. split; [|done].
    simpl. by rewrite <-app_assoc. }
  assert (∀ w1, client.calls w1 = client.calls w0 →
            ∃ rest,
              client.calls w1 =
                client.calls w ++
                  ocmclient.CallGetComponentVersion
                    (v1alpha1.Component (v1alpha1.Spec obj))
                    (v1alpha1.SpecVersion (v1alpha1.Spec obj)) :: rest ∧
              Forall isFetch rest) as Hgo0.
  { intros w1 Hw1. apply (Hgo w1 []); [by rewrite app_nil_r|done]. }
  clearbody w0.
  destruct (ocmclient.GetComponentVersion _ _ _ _) as [cv|];
    [|simplify_eq; by apply Hgo0].
  destruct (compdesc.ConvertFrom _ _) as [cd|]; [|simplify_eq; by apply Hgo0].
  destruct (controllers.constructComponentName _ _ _) as [componentName|];
    [|simplify_eq; by apply Hgo0].
  destruct (controllerutil.CreateOrUpdate _ _ _ _) as [[[op d]|e] wr] eqn:Hcu;
    apply CreateOrUpdate_spec in Hcu as (_ & Hwr & _);
    [|simplify_eq; by apply Hgo0].
  destruct (negb _); [simplify_eq; by apply Hgo0|].
  destruct (controllers.parseReferences _ _ _ _ _) as [pres wp] eqn:Hp.
  apply parseReferences_calls in Hp as (rest & Hwp & Hrest).
  rewrite Hwr in Hwp.
  destruct pres as [[tree|e]|]; [|simplify_eq; by eapply Hgo..].
  destruct (patch.NewHelper _ _); [|simplify_eq; by eapply Hgo].
  destruct (patch.Patch _ _ _) as [pr wq] eqn:Hq.
  apply PatchStatus_calls in Hq.
  apply (Hgo w' rest); [|done].
  destruct pr as [[]|]; simplify_eq; by rewrite Hq.
Qed.

(** X10.  When the root object is found, [Reconcile] calls the verifier
    exactly once and before any other call on the OCM client.  Fetches
    follow only when the verification passed, and the first of them is the
    fetch of the root's own component and version. *)
Theorem Reconcile_calls :
  ∀ fuel r (req : ObjectKey) (w : client.World) out w' component,
    client.GetComponentVersion (controllers.Client r) req w = Ok component →
    controllers.Reconcile fuel r req w = (out, w') →
    ∃ rest,
      client.calls w' =
        client.calls w ++
          ocmclient.CallVerifyComponent
            (metav1.ObjectKeyFromMeta (v1alpha1.ObjectMeta component)) :: rest ∧
      Forall isFetch rest ∧
      (rest ≠ [] →
       ocmclient.VerifyComponent (controllers.OCMClient r) component = (true, None) ∧
       ∃ rest',
         rest = ocmclient.CallGetComponentVersion
                  (v1alpha1.Component (v1alpha1.Spec component))
                  (v1alpha1.SpecVersion (v1alpha1.Spec component)) :: rest').
Proof.
  intros fuel r req w out w' component Hget H.
  unfold controllers.Reconcile, controllers.VerifyComponent in H.
  rewrite Hget in H.
  destruct (ocmclient.VerifyComponent _ _) as [ok [e|]];
    [injection H as <- <-; by exists []|].
  destruct ok; simpl in H; [|injection H as <- <-; by exists []].
  apply reconcile_calls in H as (rest & H & Hrest). simpl in H.
  eexists. rewrite H, <-app_assoc. split; [done|].
  split; [by constructor|]. intros _. split; [done|]. by exists rest.
Qed.

Lemma Reconcile_calls_witness :
  ∃ rest,
    client.calls (snd (controllers.Reconcile 5 fixture.cvr fixture.key fixture.world))
    = client.calls fixture.world ++
        ocmclient.CallVerifyComponent fixture.key :: rest ∧
    Forall isFetch rest ∧
    (rest ≠ [] →
     ocmclient.VerifyComponent (controllers.OCMClient fixture.cvr) fixture.obj
     = (true, None) ∧
     ∃ rest',
       rest = ocmclient.CallGetComponentVersion "github.com/skarlso/root" "v0.0.1"
              :: rest').
Proof.
  exact (Reconcile_calls 5 fixture.cvr fixture.key fixture.world _ _ fixture.obj
           eq_refl (surjective_pairing _)).
Defined.

(** ** The expansion: the order of its fetches *)

Lemma parseReferences_body_visits recurse r parent ref w x w' :
  (∀ references w1 out w2,
      recurse references w1 = (Some (Ok out), w2) →
      ∃ trace, client.calls w2 = client.calls w1 ++ trace ∧
               Visits r parent references trace) →
  controllers.parseReferences_body recurse r parent ref w = (Some (Ok x), w') →
  ∃ rcv below,
    ocmclient.GetComponentVersion (controllers.OCMClient r) parent
      (ocmdesc.ComponentName ref) (ocmdesc.Version ref) = Ok rcv ∧
    Visits r parent (ocmdesc.References (ocmclient.GetDescriptor rcv)) below ∧
    client.calls w' =
      client.calls w ++
        ocmclient.CallGetComponentVersion (ocmdesc.ComponentName ref)
          (ocmdesc.Version ref) :: below.
Proof.
  intros Hrec H.
  unfold controllers.parseReferences_body, controllers.GetComponentVersion in H.
  destruct (ocmclient.GetComponentVersion _ _ _ _) as [rcv|] eqn:Hrcv; [|done].
  destruct (compdesc.ConvertFrom _ _) as [cd|]; [|done].
  destruct (controllers.constructComponentName _ _ _) as [componentName|]; [|done].
  destruct (controllerutil.SetOwnerReference _ _ _) as [descriptor|]; [|done].
  destruct (controllerutil.CreateOrUpdate _ _ _ _) as [[[op o]|e] wc] eqn:Hcu;
    [|done].
  apply CreateOrUpdate_spec in Hcu as (_ & Hcalls & _). simpl in Hcalls.
  exists rcv. case_decide as Hlen.
  - destruct (recurse _ wc) as [[[out|e]|] w2] eqn:Hr; [|done..].
    injection H as <- <-.
    apply Hrec in Hr as (below & Hw2 & Hbelow). exists below.
    do 2 (split; [done|]). by rewrite Hw2, Hcalls, <-app_assoc.
  - injection H as <- <-. exists [].
    split; [done|]. split; [|done].
    destruct (ocmdesc.References _); [constructor|simpl in Hlen; lia].
Qed.

Lemma parseReferences_loop_visits body r parent references acc w out w' :
  (∀ ref w1 x w2,
      body ref w1 = (Some (Ok x), w2) →
      ∃ rcv below,
        ocmclient.GetComponentVersion (controllers.OCMClient r) parent
          (ocmdesc.ComponentName ref) (ocmdesc.Version ref) = Ok rcv ∧
        Visits r parent (ocmdesc.References (ocmclient.GetDescriptor rcv)) below ∧
        client.calls w2 =
          client.calls w1 ++
            ocmclient.CallGetComponentVersion (ocmdesc.ComponentName ref)
              (ocmdesc.Version ref) :: below) →
  controllers.parseReferences_loop body references acc w = (Some (Ok out), w') →
  ∃ trace, client.calls w' = client.calls w ++ trace ∧
           Visits r parent references trace.
Proof.
  intros Hbody. revert acc w.
  induction references as [|ref references IH]; intros acc w H; simpl in H.
  - injection H as <- <-. exists []. split; [by rewrite app_nil_r|constructor].
  - destruct (body ref w) as [[[x|e]|] w1] eqn:Hb; [|done..].
    apply Hbody in Hb as (rcv & below & Hrcv & Hbelow & Hw1).
    apply IH in H as (rest & Hw' & Hrest).
    eexists. split; [|by econstructor].
    by rewrite Hw', Hw1, <-app_assoc.
Qed.

(** X11.  A [parseReferences] that succeeds has fetched the declared
    references depth first and in declared order, each occurrence once: a
    reference, then all that its descriptor declares, then its next
    sibling.  It made no other call on the OCM client. *)
Theorem parseReferences_fetch_order :
  ∀ fuel r parent references (w : client.World) out w',
    controllers.parseReferences fuel r parent references w = (Some (Ok out), w') →
    ∃ trace, client.calls w' = client.calls w ++ trace ∧
             Visits r parent references trace.
Proof.
  intros fuel r parent.
  induction fuel as [|fuel IH]; intros references w out w' H; [done|].
  simpl in H. eapply parseReferences_loop_visits; [|done].
  intros ref w1 x w2. apply parseReferences_body_visits.
  intros refs w3 out3 w4. apply IH.
Qed.

Lemma parseReferences_fetch_order_witness :
  ∃ trace,
    client.calls (snd (controllers.parseReferences 5 fixture.familyReconciler
                         fixture.obj fixture.declaredABC fixture.world))
    = client.calls fixture.world ++ trace ∧
    Visits fixture.familyReconciler fixture.obj fixture.declaredABC trace.
Proof.
  apply (parseReferences_fetch_order 5 fixture.familyReconciler fixture.obj
           fixture.declaredABC fixture.world fixture.familyTree).
  by vm_compute.
Defined.

Example family_fetch_order :
  client.calls (snd (controllers.parseReferences 5 fixture.familyReconciler
                       fixture.obj fixture.declaredABC fixture.world))
  = [ ocmclient.CallGetComponentVersion "acme/a" "v1";
      ocmclient.CallGetComponentVersion "acme/b" "v1";
      ocmclient.CallGetComponentVersion "acme/d" "v1";
      ocmclient.CallGetComponentVersion "acme/c" "v1" ].
Proof. by vm_compute. Qed.

(** ** The reconciliation: no rollback *)

(** X12.  Over a well-formed store, a [reconcile] that fails with "failed to
    get references" has fetched and converted the root, and the record it
    wrote for the root before the expansion is still in the store, with the
    converted specification: the write is not undone.  The root objects are
    as they were. *)
Theorem reconcile_expansion_failure_keeps_root :
  ∀ fuel r obj (w : client.World) res e w',
    StoreOK w →
    controllers.reconcile fuel r obj w = (Some (res, Some e), w') →
    String.prefix "failed to get references: " (message e) = true →
    ∃ cv cd componentName d,
      ocmclient.GetComponentVersion (controllers.OCMClient r) obj
        (v1alpha1.Component (v1alpha1.Spec obj))
        (v1alpha1.SpecVersion (v1alpha1.Spec obj)) = Ok cv ∧
      compdesc.ConvertFrom (controllers.Converter r) (ocmclient.GetDescriptor cv)
      = Ok cd ∧
      controllers.constructComponentName (compdesc.GetName cd)
        (compdesc.GetVersion cd) ∅ = Ok componentName ∧
      client.cds w' !! (v1alpha1.GetNamespace obj, componentName) = Some d ∧
      v1alpha1.DescriptorSpec d
      = v1alpha1.mkComponentDescriptorSpec (compdesc.Spec cd) (compdesc.GetVersion cd) ∧
      client.cvs w' = client.cvs w.
Proof.
  intros fuel r obj w res e w' Hok H Hprefix.
  unfold controllers.reconcile, controllers.GetComponentVersion in H.
  set (w0 := client.logCall w _) in H.
  assert (StoreOK w0) as Hok0 by done.
  assert (client.cvs w0 = client.cvs w) as Hcvs0 by done.
  clearbody w0.
  destruct (ocmclient.GetComponentVersion _ _ _ _) as [cv|e0] eqn:Hcv;
    [|injection H as <- <- <-; by vm_compute in Hprefix].
  destruct (compdesc.ConvertFrom _ _) as [cd|e0] eqn:Hcd;
    [|injection H as <- <- <-; by vm_compute in Hprefix].
  destruct (controllers.constructComponentName _ _ _) as [componentName|e0] eqn:Hn;
    [|injection H as <- <- <-; by vm_compute in Hprefix].
  destruct (controllerutil.CreateOrUpdate _ _ _ _) as [[[op d]|e0] wr] eqn:Hcu;
    [|injection H as <- <- <-; by vm_compute in Hprefix].
  pose proof (root_upsert_spec _ _ _ _ _ _ _ _ Hok0 Hcu)
    as (Hcvsr & _ & Hwr & _ & _ & Hd).
  assert (v1alpha1.DescriptorSpec d
          = v1alpha1.mkComponentDescriptorSpec (compdesc.Spec cd)
              (compdesc.GetVersion cd)) as Hspec.
  { destruct (client.cds w0 !! _); [by subst|by destruct Hd]. }
  clear Hd Hcu.
  destruct (negb _); [done|].
  destruct (controllers.parseReferences _ _ _ _ wr) as [[[tree|e0]|] wp] eqn:Hp;
    [| |done].
  - destruct (patch.NewHelper _ _) as [h|e0];
      [|injection H as <- <- <-; by vm_compute in Hprefix].
    destruct (patch.Patch _ _ _) as [[?|e0] ?];
      [done|injection H as <- <- <-; by vm_compute in Hprefix].
  - injection H as <- <- <-.
    apply parseReferences_extends in Hp as [Hcvsp Hextp].
    exists cv, cd, componentName, d. do 3 (split; [done|]).
    split; [|split; [done|by rewrite Hcvsp, Hcvsr]].
    destruct (Hextp (v1alpha1.GetNamespace obj, componentName)) as [->|[Hnone _]];
      rewrite Hwr, lookup_insert_eq in *; done.
Qed.

Lemma reconcile_expansion_failure_keeps_root_witness :
  ∃ cv cd componentName d,
    ocmclient.GetComponentVersion
      (fixture.mockFetcher {[ "github.com/skarlso/root" := fixture.root ]} None true
         None)
      fixture.obj "github.com/skarlso/root" "v0.0.1" = Ok cv ∧
    compdesc.ConvertFrom fixture.converter (ocmclient.GetDescriptor cv) = Ok cd ∧
    controllers.constructComponentName (compdesc.GetName cd)
      (compdesc.GetVersion cd) ∅ = Ok componentName ∧
    client.cds
      (snd (controllers.reconcile 5
              (fixture.reconcilerWith
                 {[ "github.com/skarlso/root" := fixture.root ]} true None)
              fixture.obj fixture.world))
      !! ("default", componentName) = Some d ∧
    v1alpha1.DescriptorSpec d
    = v1alpha1.mkComponentDescriptorSpec (compdesc.Spec cd) (compdesc.GetVersion cd) ∧
    client.cvs
      (snd (controllers.reconcile 5
              (fixture.reconcilerWith
                 {[ "github.com/skarlso/root" := fixture.root ]} true None)
              fixture.obj fixture.world))
    = client.cvs fixture.world.
Proof.
  eapply (reconcile_expansion_failure_keeps_root 5
            (fixture.reconcilerWith
               {[ "github.com/skarlso/root" := fixture.root ]} true None)
            fixture.obj fixture.world _ _ _ fixture_world_StoreOK).
  - by vm_compute.
  - by vm_compute.
Defined.
